(** * SillyPCAP: the capture-file parser of [sillypcap.py]

    A shallow embedding of [CognitivePCAPParser] (format detection, the
    classic pcap reader, the pcapng reader with its scanning fallback, the
    dpkt fallback) and of [SillyPCAP.load_pcap], with the properties of the
    parser stated over it.

    Conventions.
    - Bytes are [Byte.byte]; Python [bytes] are [list byte]; Python ints
      are [Z]; Python floats are IEEE binary64 values ([PrimFloat.float]).
    - A dpkt reader yields [(ts, buf)] pairs, a float and bytes. The loop of
      [_parse_with_dpkt] unpacks them as [ts, buf], the loop of
      [_parse_pcapng] as [buf, ts]: there [QuantumPacket] is given a float
      as raw data and bytes as timestamp, and the conversions of its
      constructor ([str] of the float, [float] of the bytes) decide.
    - A method of the parser is a function from the parser object to an
      outcome and the parser object afterwards: what was appended to
      [self.packets] before an exception stays there.
    - A [while] loop is run with fuel; [None] means that the fuel ran out,
      and the totality lemmas show that it never does.
    - The entropy bookkeeping ([_update_entropy_field], the [state] and
      [observables] of a packet) is a function of the packets appended and
      swallows its own exceptions; it is left out. *)

From Stdlib Require Import String.
From Stdlib Require Import ZArith List Bool Lia Arith.
From Stdlib Require Import Strings.Byte Strings.Ascii.
From Stdlib Require Import Floats.PrimFloat Floats.FloatOps Floats.SpecFloat.
From Stdlib Require Import Numbers.Cyclic.Int63.Uint63.
Import ListNotations.

Local Open Scope Z_scope.

Definition byte : Type := Byte.byte.

(** ** Python values *)

Module Py.

(** The exceptions the parser meets. [DpktError] stands for whatever the
    dpkt library raises; [CouldNotParse e] is the [ValueError] whose
    message quotes [e]; [CouldNotConvertToFloat] is the [ValueError] of
    [float] on bytes that spell no number. *)
Inductive exn : Type :=
| OSError (errno : Z)
| FileNotFoundError
| StructError
| DpktError (code : Z)
| ValueError (why : value_error)
with value_error : Type :=
| NoFilename
| UnknownFileFormat
| RequiresDpkt
| DpktNotAvailable
| NoPacketsFound
| CouldNotParse (cause : exn)
| FileIsEmpty
| CouldNotConvertToFloat.

Inductive result (A : Type) : Type :=
| Ok (a : A)
| Raise (e : exn).
Arguments Ok {A} a.
Arguments Raise {A} e.

(** [l[a:b]] for [0 <= a]. *)
Definition slice {A} (a b : nat) (l : list A) : list A :=
  firstn (b - a) (skipn a l).

Definition Z_of_byte (b : byte) : Z := Z.of_N (Byte.to_N b).

(** Unsigned integer held by a byte string, least significant byte first. *)
Definition uint_le (bs : list byte) : Z :=
  fold_right (fun b acc => Z_of_byte b + 256 * acc) 0 bs.

Definition uint_be (bs : list byte) : Z := uint_le (rev bs).

(** [int / int]: the double nearest to the exact quotient (ties to even).
    Written for [0 <= a] and [0 < b], which is all the parser divides; the
    quotients of the parser's 64-bit values neither overflow nor fall among
    the subnormal numbers. *)
Definition true_div (a b : Z) : float :=
  if (a <=? 0) || (b <=? 0) then 0%float
  else
    let k := Z.log2 a - Z.log2 b in
    let scaled e :=
      if 0 <=? e then (a, b * 2 ^ e) else (a * 2 ^ (- e), b) in
    let e :=
      let '(n, d) := scaled (k - 52) in
      if n / d <? 2 ^ 52 then k - 53 else k - 52 in
    let '(n, d) := scaled e in
    let q0 := n / d in
    let r := n mod d in
    let q :=
      if (d <? 2 * r) || ((2 * r =? d) && Z.odd q0) then q0 + 1 else q0 in
    Z.ldexp (PrimFloat.of_uint63 (Uint63.of_Z q)) e.

(** The conversion of an int operand in [int + float]. *)
Definition float_of_int (n : Z) : float := true_div n 1.

(** *** [float(bytes)]

    What the interpreter does with a bytes object: underscores between
    digits are dropped, ASCII white space is stripped at both ends, and what
    is left has to be, from end to end, a decimal literal (sign, digits
    with an optional point, optional exponent) or one of "inf", "infinity"
    and "nan"; a zero byte anywhere is an error. The value is the double
    nearest to the number written, an infinity on overflow and a signed
    zero on underflow. Characters are handled as their codes. *)

(** The double nearest to [a / b] for [0 < a] and [0 < b], ties to even:
    a subnormal number or zero below 2^-1022, infinity from
    2^1024 - 2^970 on. *)
Definition nearest (a b : Z) : float :=
  let k := Z.log2 a - Z.log2 b in
  let scaled e :=
    if 0 <=? e then (a, b * 2 ^ e) else (a * 2 ^ (- e), b) in
  let e :=
    let '(n, d) := scaled (k - 52) in
    if n / d <? 2 ^ 52 then k - 53 else k - 52 in
  let e := Z.max e (-1074) in
  let '(n, d) := scaled e in
  let q0 := n / d in
  let r := n mod d in
  let q :=
    if (d <? 2 * r) || ((2 * r =? d) && Z.odd q0) then q0 + 1 else q0 in
  Z.ldexp (PrimFloat.of_uint63 (Uint63.of_Z q)) e.

(** [m * 10 ** e] as a fraction. *)
Definition times_pow10 (m e : Z) : Z * Z :=
  if 0 <=? e then (m * 10 ^ e, 1) else (m, 10 ^ (- e)).

(** "0" to "9". *)
Definition is_digit (c : Z) : bool := (48 <=? c) && (c <=? 57).

(** Tab, line feed, vertical tab, form feed, carriage return and space. *)
Definition is_space (c : Z) : bool := ((9 <=? c) && (c <=? 13)) || (c =? 32).

Definition to_lower (c : Z) : Z :=
  if (65 <=? c) && (c <=? 90) then c + 32 else c.

(** The string without its underscores, when each of them stands between
    two digits; [prev] is the character before [s]. *)
Fixpoint drop_underscores (prev : Z) (s : list Z) : option (list Z) :=
  match s with
  | [] => if prev =? 95 then None else Some []
  | c :: rest =>
      if c =? 95 then
        if is_digit prev then drop_underscores c rest else None
      else if (prev =? 95) && negb (is_digit c) then None
      else option_map (cons c) (drop_underscores c rest)
  end.

Fixpoint lstrip (s : list Z) : list Z :=
  match s with
  | c :: rest => if is_space c then lstrip rest else s
  | [] => []
  end.

Definition strip (s : list Z) : list Z := rev (lstrip (rev (lstrip s))).

(** The digits [s] begins with, and what follows them. *)
Fixpoint span_digits (s : list Z) : list Z * list Z :=
  match s with
  | c :: rest =>
      if is_digit c then let '(ds, tl) := span_digits rest in (c :: ds, tl)
      else ([], s)
  | [] => ([], [])
  end.

Fixpoint lstrip_zeros (s : list Z) : list Z :=
  match s with
  | c :: rest => if c =? 48 then lstrip_zeros rest else s
  | [] => []
  end.

(** The number a string of digits writes. *)
Definition number_of (ds : list Z) : Z :=
  fold_left (fun acc c => 10 * acc + (c - 48)) ds 0.

(** A leading "-" or "+", and what follows it. *)
Definition split_sign (s : list Z) : bool * list Z :=
  match s with
  | 45 :: rest => (true, rest)
  | 43 :: rest => (false, rest)
  | _ => (false, s)
  end.

Definition codes (s : string) : list Z :=
  map Z_of_byte (list_byte_of_string s).

(** The interpreter refuses more than this many significant digits, or
    digits after the point. *)
Definition MAX_DIGITS : Z := 1000000000.

(** The decimal literal, when [s] is one from end to end. A number of more
    than 310 digits before the point, or with more than 330 zeros after
    it, is an infinity or a zero without any rounding. *)
Definition parse_decimal (s : list Z) : option float :=
  let '(sign, s1) := split_sign s in
  let '(int_digits, s2) := span_digits s1 in
  let '(frac_digits, s3) :=
    match s2 with
    | 46 :: rest => span_digits rest
    | _ => ([], s2)
    end in
  if (length int_digits + length frac_digits =? 0)%nat then None
  else
    let significant := lstrip_zeros (int_digits ++ frac_digits) in
    if (MAX_DIGITS <? Z.of_nat (length significant))
       || (MAX_DIGITS <? Z.of_nat (length frac_digits)) then None
    else
      let exponent :=
        match s3 with
        | [] => Some 0
        | c :: rest =>
            if (c =? 101) || (c =? 69) then
              let '(esign, s4) := split_sign rest in
              match span_digits s4 with
              | ((_ :: _) as exp_digits, []) =>
                  Some (if esign then - number_of exp_digits
                        else number_of exp_digits)
              | _ => None
              end
            else None
        end in
      match exponent with
      | None => None
      | Some e =>
          let m := number_of significant in
          let e10 := e - Z.of_nat (length frac_digits) in
          let top := Z.of_nat (length significant) + e10 in
          let magnitude :=
            if m =? 0 then 0%float
            else if 310 <? top then infinity
            else if top <? -330 then 0%float
            else let '(a, b) := times_pow10 m e10 in nearest a b in
          Some (if sign then PrimFloat.opp magnitude else magnitude)
      end.

(** "inf", "infinity" and "nan" in any case, with an optional sign. *)
Definition parse_inf_or_nan (s : list Z) : option float :=
  let '(sign, s1) := split_sign s in
  let word := map to_lower s1 in
  let spells w := if list_eq_dec Z.eq_dec word (codes w) then true else false in
  if spells "inf"%string || spells "infinity"%string
  then Some (if sign then neg_infinity else infinity)
  else if spells "nan"%string then Some nan
  else None.

(** [float(bs)] for a bytes object; [None] is [ValueError]. *)
Definition float_of_bytes (bs : list byte) : option float :=
  let s := map Z_of_byte bs in
  if existsb (Z.eqb 0) s then None
  else
    match drop_underscores 0 s with
    | None => None
    | Some s =>
        let s := strip s in
        match parse_decimal s with
        | Some x => Some x
        | None => parse_inf_or_nan s
        end
    end.

(** *** [str(float)]

    The shortest decimal that reads back as the same double, the nearest
    to it when several do, laid out as [repr] does. *)

Local Open Scope string_scope.
Local Open Scope Z_scope.

Definition digit_char (d : Z) : ascii := ascii_of_nat (48 + Z.to_nat d).

Fixpoint decimal_fuel (fuel : nat) (n : Z) (acc : string) : string :=
  match fuel with
  | O => acc
  | S fuel' =>
      let acc := String (digit_char (n mod 10)) acc in
      if n <? 10 then acc else decimal_fuel fuel' (n / 10) acc
  end.

(** The decimal digits of [n] for [0 <= n]. *)
Definition decimal (n : Z) : string :=
  decimal_fuel (S (Z.to_nat (Z.log2 n))) n EmptyString.

(** [k] with [10 ** (k - 1) <= a / b < 10 ** k], for [0 < a] and [0 < b];
    [below k] is [a / b < 10 ** k]. *)
Definition decimal_point (a b : Z) : Z :=
  let below k :=
    if 0 <=? k then a <? b * 10 ^ k else a * 10 ^ (- k) <? b in
  let k := (Z.log2 a - Z.log2 b) * 30103 / 100000 in
  let k := if below (k - 1) then k - 2 else k in
  let k := if below (k - 1) then k - 1 else k in
  let k := if below k then k else k + 1 in
  let k := if below k then k else k + 1 in
  if below k then k else k + 1.

(** The decimal [c * 10 ** q] of [n] digits or more that reads back as the
    double [x = a / b]: with [n] digits when one of the two decimals of [n]
    digits around [a / b] does (the nearer one when both do, the even one
    on a tie), with one digit more otherwise; 17 digits always do. *)
Fixpoint shortest_fuel (fuel : nat) (n : Z) (x : float) (a b k : Z) : Z * Z :=
  let q := k - n in
  let '(num, den) :=
    if 0 <=? q then (a, b * 10 ^ q) else (a * 10 ^ (- q), b) in
  let lo := num / den in
  let r := num mod den in
  let reads_back c :=
    let '(a', b') := times_pow10 c q in PrimFloat.eqb (nearest a' b') x in
  let hi := lo + 1 in
  match fuel with
  | O => (if (den <? 2 * r) || ((2 * r =? den) && Z.odd lo) then hi else lo, q)
  | S fuel' =>
      if r =? 0 then (lo, q)
      else
        let ok_lo := reads_back lo in
        let ok_hi := reads_back hi in
        if ok_lo && ok_hi then
          (if (den <? 2 * r) || ((2 * r =? den) && Z.odd lo) then hi else lo, q)
        else if ok_lo then (lo, q)
        else if ok_hi then (hi, q)
        else shortest_fuel fuel' (n + 1) x a b k
  end.

Fixpoint rstrip_zeros_fuel (fuel : nat) (c q : Z) : Z * Z :=
  match fuel with
  | O => (c, q)
  | S fuel' =>
      if (c mod 10 =? 0) && (0 <? c) then rstrip_zeros_fuel fuel' (c / 10) (q + 1)
      else (c, q)
  end.

(** The digits of the shortest decimal that reads back as the double
    [m * 2 ** e], without trailing zeros, and the position of its decimal
    point: the value is [0.d1d2... * 10 ** decpt]. *)
Definition shortest (m e : Z) : string * Z :=
  let '(a, b) := if 0 <=? e then (m * 2 ^ e, 1) else (m, 2 ^ (- e)) in
  let x := nearest a b in
  let k := decimal_point a b in
  let '(c, q) := shortest_fuel 16 1 x a b k in
  let '(c, q) := rstrip_zeros_fuel 17 c q in
  let digits := decimal c in
  (digits, Z.of_nat (String.length digits) + q).

Fixpoint zeros (n : nat) : string :=
  match n with O => EmptyString | S n' => String "0" (zeros n') end.

Definition substring_from (n : nat) (s : string) : string :=
  substring n (String.length s - n) s.

(** The layout of [repr]: an exponent when the decimal point falls more
    than 16 places to the right or 4 or more to the left of the digits. *)
Definition layout (digits : string) (decpt : Z) : string :=
  let nd := Z.of_nat (String.length digits) in
  if (decpt <=? -4) || (16 <? decpt) then
    let mantissa :=
      if nd =? 1 then digits
      else substring 0 1 digits ++ "." ++ substring_from 1 digits in
    let e := decpt - 1 in
    let edigits := decimal (Z.abs e) in
    mantissa ++ "e" ++ (if e <? 0 then "-" else "+")
      ++ (if (String.length edigits <? 2)%nat then "0" else "") ++ edigits
  else if decpt <=? 0 then
    "0." ++ zeros (Z.to_nat (- decpt)) ++ digits
  else if nd <=? decpt then
    digits ++ zeros (Z.to_nat (decpt - nd)) ++ ".0"
  else
    substring 0 (Z.to_nat decpt) digits ++ "."
      ++ substring_from (Z.to_nat decpt) digits.

(** [str(x)] and [repr(x)] for a float. *)
Definition str_of_float (x : float) : string :=
  match Prim2SF x with
  | S754_nan => "nan"
  | S754_infinity s => if s then "-inf" else "inf"
  | S754_zero s => if s then "-0.0" else "0.0"
  | S754_finite s m e =>
      let '(digits, decpt) := shortest (Zpos m) e in
      (if s then "-" else "") ++ layout digits decpt
  end.

Local Close Scope string_scope.

End Py.
Import Py.

(** ** The byte source *)

(** An open file: its bytes, and possibly a fault: [Some (q, errno)] makes
    every read that would return a byte at offset [q] or beyond raise
    [OSError errno]. *)
Record File : Type := {
  content : list byte;
  fault : option (nat * Z)
}.

Definition healthy (data : list byte) : File :=
  {| content := data; fault := None |}.

(** [f.read(n)] with the file positioned at [pos]. *)
Definition read (f : File) (pos n : nat) : result (list byte) :=
  let chunk := firstn n (skipn pos (content f)) in
  match fault f with
  | Some (q, errno) =>
      if (q <? pos + length chunk)%nat then Raise (OSError errno) else Ok chunk
  | None => Ok chunk
  end.

(** [f.read()] with the file positioned at [pos]. *)
Definition read_all (f : File) (pos : nat) : result (list byte) :=
  read f pos (length (content f)).

(** What the successive [open(self.filename, 'rb')] calls of one run find:
    [opens k] is the outcome of the [k]-th call from now on. *)
Definition Opens : Type := nat -> result File.

Definition later (opens : Opens) : Opens := fun k => opens (S k).

Definition always (f : File) : Opens := fun _ => Ok f.

(** ** struct.unpack *)

Inductive Endian : Type := little | big | unknown.

Inductive FormatType : Type := classic | nanosecond | pcapng | wireless_cap.

Definition FormatType_eqb (a b : FormatType) : bool :=
  match a, b with
  | classic, classic | nanosecond, nanosecond
  | pcapng, pcapng | wireless_cap, wireless_cap => true
  | _, _ => false
  end.

(** The field of a ['<...'] or ['>...'] format held by [bs]. *)
Definition field (lt : bool) (bs : list byte) : Z :=
  if lt then uint_le bs else uint_be bs.

(** [struct.unpack('<I', bs)[0]] and [struct.unpack('>I', bs)[0]]. *)
Definition unpack_I (lt : bool) (bs : list byte) : result Z :=
  if (length bs =? 4)%nat then Ok (field lt bs) else Raise StructError.

(** [struct.unpack('<IIII', bs)] and [struct.unpack('>IIII', bs)]. *)
Definition unpack_IIII (lt : bool) (bs : list byte) : result (Z * Z * Z * Z) :=
  if (length bs =? 16)%nat then
    Ok (field lt (slice 0 4 bs), field lt (slice 4 8 bs),
        field lt (slice 8 12 bs), field lt (slice 12 16 bs))
  else Raise StructError.

(** [struct.unpack('<IHHIIII', bs)] and [struct.unpack('>IHHIIII', bs)]. *)
Definition unpack_IHHIIII (lt : bool) (bs : list byte)
  : result (Z * Z * Z * Z * Z * Z * Z) :=
  if (length bs =? 24)%nat then
    Ok (field lt (slice 0 4 bs), field lt (slice 4 6 bs),
        field lt (slice 6 8 bs), field lt (slice 8 12 bs),
        field lt (slice 12 16 bs), field lt (slice 16 20 bs),
        field lt (slice 20 24 bs))
  else Raise StructError.

(** ** The parser object *)

(** [QuantumPacket]: [raw_data] is always bytes, [interface_id] defaults
    to 0. *)
Record QuantumPacket : Type := {
  raw_data : list byte;
  timestamp : float;
  interface_id : Z
}.

(** [QuantumPacket(raw_data, timestamp)] for bytes and a float, which the
    constructor keeps as they are. *)
Definition new_packet (data : list byte) (ts : float) : QuantumPacket :=
  {| raw_data := data; timestamp := ts; interface_id := 0 |}.

(** What the parser hands to the constructor, by its type at run time. *)
Inductive value : Type :=
| VBytes (b : list byte)
| VFloat (x : float).

(** [_set_raw_data]: bytes are kept, a number is kept as the text [str]
    gives for it. *)
Definition _set_raw_data (raw_data : value) : list byte :=
  match raw_data with
  | VBytes b => b
  | VFloat x => list_byte_of_string (str_of_float x)
  end.

(** [float(timestamp)]. *)
Definition to_float (timestamp : value) : result float :=
  match timestamp with
  | VFloat x => Ok x
  | VBytes b =>
      match float_of_bytes b with
      | Some x => Ok x
      | None => Raise (ValueError CouldNotConvertToFloat)
      end
  end.

(** [QuantumPacket(raw_data, timestamp)], whatever the two are: the raw
    data are set first, then [float(timestamp)] is taken, which raises on
    bytes that spell no number. *)
Definition QuantumPacket_init (raw_data timestamp : value)
  : result QuantumPacket :=
  let data := _set_raw_data raw_data in
  match to_float timestamp with
  | Ok ts => Ok {| raw_data := data; timestamp := ts; interface_id := 0 |}
  | Raise e => Raise e
  end.

(** [self.format_info], a dict: a key that is absent is [None]. [magic] is
    kept as the number the code renders with eight hex digits, [version] as
    the pair it renders as "major.minor". *)
Record FormatInfo : Type := {
  fi_magic : option Z;
  fi_version : option (Z * Z);
  fi_snaplen : option Z;
  fi_network : option Z;
  fi_format : option FormatType;
  fi_endian : option Endian;
  fi_interfaces : option (list (nat * Z * Z));
  fi_parsed_with_dpkt : bool
}.

Definition empty_info : FormatInfo :=
  {| fi_magic := None; fi_version := None; fi_snaplen := None;
     fi_network := None; fi_format := None; fi_endian := None;
     fi_interfaces := None; fi_parsed_with_dpkt := false |}.

(** The fields of [CognitivePCAPParser] that parsing reads or writes. *)
Record CognitivePCAPParser : Type := {
  filename : option string;
  packets : list QuantumPacket;
  format_info : FormatInfo
}.

(** [CognitivePCAPParser(filename)]. *)
Definition new_parser (name : option string) : CognitivePCAPParser :=
  {| filename := name; packets := []; format_info := empty_info |}.

Definition set_filename (name : option string) (self : CognitivePCAPParser) :=
  {| filename := name; packets := packets self;
     format_info := format_info self |}.

Definition set_format_info (fi : FormatInfo) (self : CognitivePCAPParser) :=
  {| filename := filename self; packets := packets self; format_info := fi |}.

(** [self.packets.append(p)]. *)
Definition append_packet (p : QuantumPacket) (self : CognitivePCAPParser) :=
  {| filename := filename self; packets := packets self ++ [p];
     format_info := format_info self |}.

(** ** Methods: state, exceptions, fuel *)

Definition M (A : Type) : Type :=
  CognitivePCAPParser -> option (result A * CognitivePCAPParser).

Definition ret {A} (a : A) : M A := fun self => Some (Ok a, self).

Definition raise {A} (e : exn) : M A := fun self => Some (Raise e, self).

Definition bind {A B} (m : M A) (k : A -> M B) : M B :=
  fun self =>
    match m self with
    | None => None
    | Some (Ok a, self') => k a self'
    | Some (Raise e, self') => Some (Raise e, self')
    end.

Notation "x <- m ;; k" := (bind m (fun x => k))
  (at level 61, m at next level, right associativity).
Notation "m ;;; k" := (bind m (fun _ => k))
  (at level 61, right associativity).

(** A value computed outside the parser object, or the exception it
    raised. *)
Definition lift {A} (r : result A) : M A :=
  match r with Ok a => ret a | Raise e => raise e end.

(** [self.x = ...] and friends. *)
Definition modify (g : CognitivePCAPParser -> CognitivePCAPParser) : M unit :=
  fun self => Some (Ok tt, g self).

Definition get {A} (g : CognitivePCAPParser -> A) : M A :=
  fun self => Some (Ok (g self), self).

(** [try: body  except Exception as e: handler e]. *)
Definition try_except {A} (body : M A) (handler : exn -> M A) : M A :=
  fun self =>
    match body self with
    | None => None
    | Some (Ok a, self') => Some (Ok a, self')
    | Some (Raise e, self') => handler e self'
    end.

(** One turn of a loop body: go round again, or leave the loop. *)
Inductive ctl (S : Type) : Type :=
| Continue (s : S)
| Break (s : S).
Arguments Continue {S} s.
Arguments Break {S} s.

(** A [while] loop over the local variables [s]; it yields their values
    when the loop is left. *)
Fixpoint while {S} (fuel : nat) (body : S -> M (ctl S)) (s : S) : M S :=
  match fuel with
  | O => fun _ => None
  | Datatypes.S fuel' =>
      c <- body s ;;
      match c with
      | Continue s' => while fuel' body s'
      | Break s' => ret s'
      end
  end.

(** [for x in xs: body x]. *)
Fixpoint for_each {A} (xs : list A) (body : A -> M unit) : M unit :=
  match xs with
  | [] => ret tt
  | x :: rest => body x ;;; for_each rest body
  end.

(** ** Format detection *)

(** [PCAP_MAGIC_NUMBERS], in the order the dict is written and iterated. *)
Definition PCAP_MAGIC_NUMBERS : list (Z * (Endian * FormatType)) :=
  [ (0xa1b2c3d4, (little, classic));
    (0xd4c3b2a1, (big, classic));
    (0xa1b23c4d, (little, nanosecond));
    (0x4d3cb2a1, (big, nanosecond));
    (0x0a0d0d0a, (little, pcapng)) ].

(** The [for magic, (endian, format_type) in PCAP_MAGIC_NUMBERS.items()]
    loop of [detect_format]: the first entry that equals either reading of
    the four bytes decides. *)
Fixpoint match_magic (magic_le magic_be : Z)
    (table : list (Z * (Endian * FormatType)))
  : option (Endian * FormatType) :=
  match table with
  | [] => None
  | (magic, (endian, format_type)) :: rest =>
      if magic_le =? magic then Some (endian, format_type)
      else if magic_be =? magic then Some (endian, format_type)
      else match_magic magic_le magic_be rest
  end.

(** The body of the [try] of [detect_format]. *)
Definition detect_format_body (o : result File)
  : result (option Endian * option FormatType) :=
  match o with
  | Raise e => Raise e
  | Ok f =>
      match read f 0 4 with
      | Raise e => Raise e
      | Ok magic_bytes =>
          if (length magic_bytes <? 4)%nat then Ok (None, None)
          else
            match unpack_I true magic_bytes, unpack_I false magic_bytes with
            | Ok magic_le, Ok magic_be =>
                match match_magic magic_le magic_be PCAP_MAGIC_NUMBERS with
                | Some (endian, format_type) =>
                    Ok (Some endian, Some format_type)
                | None =>
                    if list_eq_dec Byte.byte_eq_dec (slice 0 2 magic_bytes)
                                   [Byte.xff; Byte.xff]
                    then Ok (Some unknown, Some wireless_cap)
                    else Ok (None, None)
                end
            | Raise e, _ => Raise e
            | _, Raise e => Raise e
            end
      end
  end.

(** [detect_format]: every exception is logged and answered with
    [(None, None)]. *)
Definition detect_format (o : result File)
  : option Endian * option FormatType :=
  match detect_format_body o with
  | Ok r => r
  | Raise _ => (None, None)
  end.

(** ** The dpkt library *)

(** A dpkt reader object as the parser uses it: the [interfaces] attribute
    when it has one (snaplen and linktype of each), the items its iteration
    yields, each the pair [(ts, buf)] of a timestamp (a float) and the
    bytes of a packet, as both [dpkt.pcap.Reader] and [dpkt.pcapng.Reader]
    yield them, and the exception that ends the iteration, if one does. *)
Record Reader : Type := {
  rd_interfaces : option (list (Z * Z));
  rd_items : list (float * list byte);
  rd_raises : option exn
}.

(** The host: whether [import dpkt] succeeded, and what the constructors
    [dpkt.pcap.Reader(f)] and [dpkt.pcapng.Reader(f)] do with a file. *)
Record Dpkt : Type := {
  DPKT_AVAILABLE : bool;
  pcap_Reader : File -> result Reader;
  pcapng_Reader : File -> result Reader
}.

(** [for ts, buf in reader: self.packets.append(QuantumPacket(buf, ts))],
    the loop of [_parse_with_dpkt]. *)
Definition drain (reader : Reader) : M unit :=
  for_each (rd_items reader)
    (fun item =>
       let '(ts, buf) := item in
       modify (append_packet (new_packet buf ts))) ;;;
  match rd_raises reader with
  | Some e => raise e
  | None => ret tt
  end.

(** [for buf, ts in reader: self.packets.append(QuantumPacket(buf, ts))],
    the loop of [_parse_pcapng]: of the pair the reader yields, the
    timestamp is bound to [buf] and the bytes to [ts]. *)
Definition drain_pcapng (reader : Reader) : M unit :=
  for_each (rd_items reader)
    (fun item =>
       let '(buf, ts) := item in
       qpacket <- lift (QuantumPacket_init (VFloat buf) (VBytes ts)) ;;
       modify (append_packet qpacket)) ;;;
  match rd_raises reader with
  | Some e => raise e
  | None => ret tt
  end.

(** ** The classic reader *)

Definition is_little (endian : option Endian) : bool :=
  match endian with Some little => true | _ => false end.

Definition is_nanosecond (format_type : option FormatType) : bool :=
  match format_type with Some nanosecond => true | _ => false end.

(** [ts_sec + ts_frac / 1_000_000_000] or [ts_sec + ts_frac / 1_000_000]. *)
Definition classic_timestamp (nanosecond_precision : bool) (ts_sec ts_frac : Z)
  : float :=
  if nanosecond_precision
  then PrimFloat.add (float_of_int ts_sec) (true_div ts_frac 1000000000)
  else PrimFloat.add (float_of_int ts_sec) (true_div ts_frac 1000000).

(** [packet_data] after the padding of a short read. *)
Definition pad_packet (packet_data : list byte) (incl_len : Z) : list byte :=
  if Z.of_nat (length packet_data) <? incl_len
  then packet_data
         ++ repeat Byte.x00 (Z.to_nat (incl_len - Z.of_nat (length packet_data)))
  else packet_data.

(** One turn of the [while True] loop of [_parse_classic_pcap], the file
    being at offset [pos]. *)
Definition classic_turn (lt nanosecond_precision : bool) (f : File) (pos : nat)
  : M (ctl nat) :=
  packet_header <- lift (read f pos 16) ;;
  if (length packet_header <? 16)%nat then ret (Break pos)
  else
    h <- lift (unpack_IIII lt packet_header) ;;
    let '(ts_sec, ts_frac, incl_len, orig_len) := h in
    let timestamp := classic_timestamp nanosecond_precision ts_sec ts_frac in
    let pos := (pos + length packet_header)%nat in
    packet_data <- lift (read f pos (Z.to_nat incl_len)) ;;
    let pos := (pos + length packet_data)%nat in
    modify (append_packet (new_packet (pad_packet packet_data incl_len) timestamp)) ;;;
    ret (Continue pos).

(** The body of the [try] of [_parse_classic_pcap]. *)
Definition classic_attempt (o : result File)
    (endian : option Endian) (format_type : option FormatType) : M unit :=
  f <- lift o ;;
  global_header <- lift (read f 0 24) ;;
  let lt := is_little endian in
  h <- lift (unpack_IHHIIII lt global_header) ;;
  let '(magic, version_major, version_minor, thiszone, sigfigs, snaplen, network) := h in
  modify (set_format_info
            {| fi_magic := Some magic;
               fi_version := Some (version_major, version_minor);
               fi_snaplen := Some snaplen;
               fi_network := Some network;
               fi_format := format_type;
               fi_endian := endian;
               fi_interfaces := None;
               fi_parsed_with_dpkt := false |}) ;;;
  let nanosecond_precision := is_nanosecond format_type in
  while (S (length (content f)))
        (classic_turn lt nanosecond_precision f) (length global_header) ;;;
  ret tt.

Definition pcapng_magic : list byte := [Byte.x0a; Byte.x0d; Byte.x0d; Byte.x0a].

Definition set_parsed_with_dpkt (self : CognitivePCAPParser) :=
  let fi := format_info self in
  set_format_info
    {| fi_magic := fi_magic fi; fi_version := fi_version fi;
       fi_snaplen := fi_snaplen fi; fi_network := fi_network fi;
       fi_format := fi_format fi; fi_endian := fi_endian fi;
       fi_interfaces := fi_interfaces fi; fi_parsed_with_dpkt := true |} self.

(** The body of the [try] of [_parse_with_dpkt]; the [seek(0)] after the
    four bytes puts the file back at its start for the reader. *)
Definition dpkt_attempt (P : Dpkt) (o : result File) : M unit :=
  f <- lift o ;;
  magic <- lift (read f 0 4) ;;
  reader <- lift (if list_eq_dec Byte.byte_eq_dec magic pcapng_magic
                  then pcapng_Reader P f
                  else pcap_Reader P f) ;;
  drain reader ;;;
  modify set_parsed_with_dpkt.

(** [_parse_with_dpkt]; [o] is what its [open] finds. *)
Definition _parse_with_dpkt (P : Dpkt) (o : result File) : M unit :=
  if negb (DPKT_AVAILABLE P) then raise (ValueError DpktNotAvailable)
  else try_except (dpkt_attempt P o) (fun e => raise e).

(** [_parse_classic_pcap]; [opens 0] is what its own [open] finds, [opens 1]
    what the [open] of the dpkt fallback finds. *)
Definition _parse_classic_pcap (P : Dpkt) (opens : Opens)
    (endian : option Endian) (format_type : option FormatType) : M unit :=
  try_except
    (classic_attempt (opens 0%nat) endian format_type)
    (fun e =>
       if DPKT_AVAILABLE P then _parse_with_dpkt P (opens 1%nat)
       else raise e).

(** ** The pcapng reader and its scanning fallback *)

(** The [try] inside the scanning loop: the packet of the block at [pos],
    when its declared length fits the buffer. It yields the new
    [packet_count]. *)
Definition extract_packet (data : list byte) (pos packet_count : nat) : M nat :=
  let packet_start := (pos + 16)%nat in
  incl_len <- lift (unpack_I true (slice (pos + 12) (pos + 16) data)) ;;
  if Z.of_nat packet_start + incl_len <=? Z.of_nat (length data) then
    let packet_data :=
      slice packet_start (packet_start + Z.to_nat incl_len) data in
    ts_high <- lift (unpack_I true (slice (pos + 8) (pos + 12) data)) ;;
    ts_low <- lift (unpack_I true (slice (pos + 12) (pos + 16) data)) ;;
    let ts_combined := Z.lor (Z.shiftl ts_high 32) ts_low in
    let timestamp := true_div ts_combined 1000000 in
    modify (append_packet (new_packet packet_data timestamp)) ;;;
    ret (packet_count + 1)%nat
  else ret packet_count.

(** [pos += block_len], then the alignment to 4 bytes. *)
Definition next_pos (pos : nat) (block_len : Z) : nat :=
  let pos := Z.of_nat pos + block_len in
  Z.to_nat (if negb (block_len mod 4 =? 0)
            then pos + (4 - block_len mod 4)
            else pos).

(** One turn of [while pos < len(data)] in [_parse_pcapng_fallback]; the
    loop variables are [(pos, packet_count)]. *)
Definition scan_turn (data : list byte) (s : nat * nat) : M (ctl (nat * nat)) :=
  let '(pos, packet_count) := s in
  if negb (pos <? length data)%nat then ret (Break s)
  else if (pos + 16 <=? length data)%nat then
    block_type <- lift (unpack_I true (slice pos (pos + 4) data)) ;;
    block_len <- lift (unpack_I true (slice (pos + 4) (pos + 8) data)) ;;
    if (block_len =? 0) || (Z.of_nat (length data) - Z.of_nat pos <? block_len)
    then ret (Break s)
    else
      packet_count <-
        (if (block_type =? 0x00000006) && (32 <=? block_len)
         then try_except (extract_packet data pos packet_count)
                         (fun _ => ret packet_count)
         else ret packet_count) ;;
      ret (Continue (next_pos pos block_len, packet_count))
  else ret (Break s).

(** The scanning loop over the whole buffer. *)
Definition scan (data : list byte) : M (nat * nat) :=
  while (S (length data)) (scan_turn data) (0%nat, 0%nat).

(** The body of the [try] of [_parse_pcapng_fallback]. *)
Definition scan_attempt (o : result File) : M unit :=
  f <- lift o ;;
  data <- lift (read_all f 0) ;;
  s <- scan data ;;
  if (0 <? snd s)%nat then ret tt
  else raise (ValueError NoPacketsFound).

(** [_parse_pcapng_fallback]; [o] is what its [open] finds. *)
Definition _parse_pcapng_fallback (o : result File) : M unit :=
  try_except (scan_attempt o)
             (fun e => raise (ValueError (CouldNotParse e))).

(** [enumerate(reader.interfaces)] as the entries of
    [format_info['interfaces']]. *)
Fixpoint enumerate_from (i : nat) (ifaces : list (Z * Z)) : list (nat * Z * Z) :=
  match ifaces with
  | [] => []
  | (snaplen, linktype) :: rest =>
      (i, snaplen, linktype) :: enumerate_from (S i) rest
  end.

Definition pcapng_info (ifaces : list (nat * Z * Z)) : FormatInfo :=
  {| fi_magic := None; fi_version := None; fi_snaplen := None;
     fi_network := None; fi_format := Some pcapng; fi_endian := None;
     fi_interfaces := Some ifaces; fi_parsed_with_dpkt := false |}.

(** The body of the [try] of [_parse_pcapng]. *)
Definition pcapng_attempt (P : Dpkt) (o : result File) : M unit :=
  f <- lift o ;;
  reader <- lift (pcapng_Reader P f) ;;
  modify (set_format_info (pcapng_info [])) ;;;
  match rd_interfaces reader with
  | Some ifaces =>
      modify (set_format_info (pcapng_info (enumerate_from 0 ifaces)))
  | None => ret tt
  end ;;;
  drain_pcapng reader.

(** [_parse_pcapng]; [opens 0] is what its own [open] finds, [opens 1] what
    the [open] of the scanning fallback finds. *)
Definition _parse_pcapng (P : Dpkt) (opens : Opens) : M unit :=
  if negb (DPKT_AVAILABLE P) then raise (ValueError RequiresDpkt)
  else
    try_except
      (pcapng_attempt P (opens 0%nat))
      (fun _ => _parse_pcapng_fallback (opens 1%nat)).

(** ** The orchestrator *)

(** The file system as the parser meets it. *)
Record FileSystem : Type := {
  fs_exists : string -> bool;
  fs_getsize : string -> nat;
  fs_open : string -> Opens
}.

(** Truth value of a filename argument: [None] and the empty string are
    false. *)
Definition truthy (name : option string) : bool :=
  match name with
  | Some s => negb (String.eqb s EmptyString)
  | None => false
  end.

(** [parse_file(filename)]. *)
Definition parse_file (P : Dpkt) (fs : FileSystem) (name : option string)
  : M unit :=
  (if truthy name then modify (set_filename name) else ret tt) ;;;
  name <- get filename ;;
  match name with
  | None => raise (ValueError NoFilename)
  | Some path =>
      if negb (truthy name) then raise (ValueError NoFilename)
      else
        let opens := fs_open fs path in
        let '(endian, format_type) := detect_format (opens 0%nat) in
        match format_type with
        | Some pcapng => _parse_pcapng P (later opens)
        | Some classic | Some nanosecond =>
            _parse_classic_pcap P (later opens) endian format_type
        | _ =>
            if DPKT_AVAILABLE P then _parse_with_dpkt P (opens 1%nat)
            else raise (ValueError UnknownFileFormat)
        end
  end.

(** The fields of [SillyPCAP] that loading touches. *)
Record SillyPCAP : Type := {
  sp_filename : option string;
  parser : CognitivePCAPParser
}.

(** [SillyPCAP(filename)]. *)
Definition new_SillyPCAP (name : option string) : SillyPCAP :=
  {| sp_filename := name; parser := new_parser name |}.

(** [load_pcap(filename)]. *)
Definition load_pcap (P : Dpkt) (fs : FileSystem) (name : string)
    (self : SillyPCAP) : option (result unit * SillyPCAP) :=
  let self := {| sp_filename := Some name; parser := parser self |} in
  if negb (fs_exists fs name) then Some (Raise FileNotFoundError, self)
  else
    let file_size := fs_getsize fs name in
    if (file_size =? 0)%nat then Some (Raise (ValueError FileIsEmpty), self)
    else
      match parse_file P fs (Some name) (parser self) with
      | None => None
      | Some (r, p) => Some (r, {| sp_filename := Some name; parser := p |})
      end.

(** ** Vocabulary of the statements *)

(** The session with the packets [l] appended. *)
Definition add_packets (l : list QuantumPacket) (self : CognitivePCAPParser) :=
  {| filename := filename self; packets := packets self ++ l;
     format_info := format_info self |}.

(** The packets made of the items a reader yields, each with the bytes of
    the item as raw data and its timestamp as timestamp. *)
Definition packets_of (reader : Reader) : list QuantumPacket :=
  map (fun item => new_packet (snd item) (fst item)) (rd_items reader).

(** Whether the bytes of every item spell a number. *)
Definition all_numbers (items : list (float * list byte)) : bool :=
  forallb (fun item =>
             match float_of_bytes (snd item) with
             | Some _ => true
             | None => false
             end) items.

(** [format_info['interfaces']] as [_parse_pcapng] fills it for a reader. *)
Definition interfaces_of (reader : Reader) : list (nat * Z * Z) :=
  match rd_interfaces reader with
  | Some ifaces => enumerate_from 0 ifaces
  | None => []
  end.

(** Whether the iteration of a reader ends without an exception. *)
Definition ends_normally (reader : Reader) : bool :=
  match rd_raises reader with
  | None => true
  | Some _ => false
  end.

(** The packets the loop of [_parse_pcapng] makes of the items a reader
    yields: one for each item up to the first whose bytes spell no number,
    with the text of the item's timestamp as raw data and the number its
    bytes spell as timestamp. *)
Fixpoint swapped_packets (items : list (float * list byte))
  : list QuantumPacket :=
  match items with
  | [] => []
  | (ts, buf) :: rest =>
      match float_of_bytes buf with
      | Some x =>
          new_packet (list_byte_of_string (str_of_float ts)) x
          :: swapped_packets rest
      | None => []
      end
  end.

(** A record of a classic file: the four header fields and the payload
    bytes that follow the header. *)
Record PacketRecord : Type := {
  ts_sec : Z;
  ts_frac : Z;
  incl_len : Z;
  orig_len : Z;
  payload : list byte
}.

(** [holds_records lt bytes rs]: [bytes] is the records [rs] one after the
    other, each a 16-byte header that unpacks (little-endian when [lt]) to
    the fields of the record, followed by exactly [incl_len] payload
    bytes. *)
Inductive holds_records (lt : bool) : list byte -> list PacketRecord -> Prop :=
| holds_nil : holds_records lt [] []
| holds_cons hdr r rest rs :
    unpack_IIII lt hdr = Ok (ts_sec r, ts_frac r, incl_len r, orig_len r) ->
    Z.of_nat (length (payload r)) = incl_len r ->
    holds_records lt rest rs ->
    holds_records lt (hdr ++ payload r ++ rest) (r :: rs).

(** The packet the reader makes of a complete record. *)
Definition packet_of (nanosecond_precision : bool) (r : PacketRecord)
  : QuantumPacket :=
  new_packet (payload r)
             (classic_timestamp nanosecond_precision (ts_sec r) (ts_frac r)).

(** The [format_info] the classic reader writes for a 24-byte global
    header. *)
Definition classic_info (endian : option Endian) (format_type : option FormatType)
    (global_header : list byte) : FormatInfo :=
  let lt := is_little endian in
  {| fi_magic := Some (field lt (slice 0 4 global_header));
     fi_version := Some (field lt (slice 4 6 global_header),
                         field lt (slice 6 8 global_header));
     fi_snaplen := Some (field lt (slice 16 20 global_header));
     fi_network := Some (field lt (slice 20 24 global_header));
     fi_format := format_type;
     fi_endian := endian;
     fi_interfaces := None;
     fi_parsed_with_dpkt := false |}.

(** The little-endian 32-bit word at offset [pos] of the buffer. *)
Definition u32_at (data : list byte) (pos : nat) : Z :=
  uint_le (slice pos (pos + 4) data).

(** The packet the scan makes of the block at [pos]. *)
Definition epb_packet (data : list byte) (pos : nat) : QuantumPacket :=
  new_packet
    (slice (pos + 16) (pos + 16 + Z.to_nat (u32_at data (pos + 12))) data)
    (true_div (Z.lor (Z.shiftl (u32_at data (pos + 8)) 32)
                     (u32_at data (pos + 12)))
              1000000).

(** What one turn at [pos] appends. *)
Definition block_packets (data : list byte) (pos : nat) : list QuantumPacket :=
  if (u32_at data pos =? 6) && (32 <=? u32_at data (pos + 4))
     && (Z.of_nat (pos + 16) + u32_at data (pos + 12) <=? Z.of_nat (length data))
  then [epb_packet data pos]
  else [].

(** Whether the turn at [pos] leaves the loop. *)
Definition scan_stops (data : list byte) (pos : nat) : bool :=
  negb (pos + 16 <=? length data)%nat
  || (u32_at data (pos + 4) =? 0)
  || (Z.of_nat (length data) - Z.of_nat pos <? u32_at data (pos + 4)).

(** [reaches data pos]: the walk of the scanning loop over [data] arrives at
    offset [pos]: it starts at 0 and goes from a block header to the next by
    the declared length, rounded up to a multiple of 4, as long as 16 bytes
    remain and the declared length is neither zero nor larger than what
    remains. *)
Inductive reaches (data : list byte) : nat -> Prop :=
| reaches_start : reaches data 0
| reaches_next pos :
    reaches data pos ->
    (pos + 16 <= length data)%nat ->
    1 <= u32_at data (pos + 4) <= Z.of_nat (length data) - Z.of_nat pos ->
    reaches data (next_pos pos (u32_at data (pos + 4))).

(** [steady m]: the outcome of [m] and the packets it appends do not depend
    on the session it runs in, and it appends without touching the packets
    that are there. *)
Definition steady {A} (m : M A) : Prop :=
  exists (o : option (result A)) (l : list QuantumPacket),
    forall self,
      option_map fst (m self) = o
      /\ forall r self', m self = Some (r, self') ->
                         packets self' = packets self ++ l.

(** [total m]: [m] comes to an outcome in every session. *)
Definition total {A} (m : M A) : Prop :=
  forall self, exists r self', m self = Some (r, self').

(** The packets a strategy yields when it runs in a fresh session. *)
Definition frames_of {A} (m : M A) : list QuantumPacket :=
  match m (new_parser None) with
  | Some (_, self) => packets self
  | None => []
  end.

(** ** Sample inputs *)

(** A byte written as a number. *)
Definition byte_of_Z (z : Z) : byte :=
  match Byte.of_N (Z.to_N (z mod 256)) with
  | Some b => b
  | None => Byte.x00
  end.

Definition bytes_of (l : list Z) : list byte := map byte_of_Z l.

(** A host without dpkt. *)
Definition no_dpkt : Dpkt :=
  {| DPKT_AVAILABLE := false;
     pcap_Reader := fun _ => Raise (DpktError 0);
     pcapng_Reader := fun _ => Raise (DpktError 0) |}.

(** A file system holding one file that always opens and reads well. *)
Definition one_file (data : list byte) : FileSystem :=
  {| fs_exists := fun _ => true;
     fs_getsize := fun _ => length data;
     fs_open := fun _ => always (healthy data) |}.

(** The global header of a little-endian classic file: version 2.4,
    snaplen 65535, link type 1. *)
Definition le_global_header : list byte :=
  bytes_of [0xd4; 0xc3; 0xb2; 0xa1;  2; 0;  4; 0;  0; 0; 0; 0;  0; 0; 0; 0;
            0xff; 0xff; 0; 0;  1; 0; 0; 0].

(** Record 1 of the scenario: sec = 1700000000 = 0x6553f100,
    frac = 500000 = 0x0007a120, 14 zero bytes and the IPv4 ethertype. *)
Definition le_record1_header : list byte :=
  bytes_of [0x00; 0xf1; 0x53; 0x65;  0x20; 0xa1; 0x07; 0x00;
            16; 0; 0; 0;  16; 0; 0; 0].

Definition record1_payload : list byte :=
  repeat Byte.x00 14 ++ bytes_of [0x08; 0x00].

Definition le_record1 : list byte := le_record1_header ++ record1_payload.

(** Record 2 of the scenario: 20 bytes declared, 10 present. *)
Definition le_record2_header : list byte :=
  bytes_of [0x01; 0xf1; 0x53; 0x65;  0; 0; 0; 0;  20; 0; 0; 0;  20; 0; 0; 0].

Definition record2_present : list byte :=
  bytes_of [1; 2; 3; 4; 5; 6; 7; 8; 9; 10].

(** The same global header with the magic of the nanosecond variant. *)
Definition le_nanosecond_header : list byte :=
  bytes_of [0x4d; 0x3c; 0xb2; 0xa1] ++ skipn 4 le_global_header.

(** The two-record file whose second payload is cut after 10 bytes. *)
Definition scenario : list byte :=
  le_global_header ++ le_record1 ++ le_record2_header ++ record2_present.

(** The same file with the ten missing bytes present, as zeros. *)
Definition scenario_padded : list byte := scenario ++ repeat Byte.x00 10.

Definition record1 : PacketRecord :=
  {| ts_sec := 1700000000; ts_frac := 500000; incl_len := 16; orig_len := 16;
     payload := record1_payload |}.

(** A section header block of 28 bytes. *)
Definition sample_shb : list byte :=
  bytes_of [0x0a; 0x0d; 0x0d; 0x0a;  28; 0; 0; 0;  0x4d; 0x3c; 0x2b; 0x1a;
            1; 0;  0; 0;  0xff; 0xff; 0xff; 0xff; 0xff; 0xff; 0xff; 0xff;
            28; 0; 0; 0].

(** A block of type 6 and length 32 as the scan reads it: the word at
    offset 12 says 4 payload bytes, which follow at offset 16. *)
Definition sample_epb : list byte :=
  bytes_of [6; 0; 0; 0;  32; 0; 0; 0;  0; 0; 0; 0;  4; 0; 0; 0;
            0xde; 0xad; 0xbe; 0xef;  0; 0; 0; 0;  0; 0; 0; 0;  32; 0; 0; 0].

Definition sample_pcapng : list byte := sample_shb ++ sample_epb.

(** Sixteen bytes that are no block header, then the block. *)
Definition garbage_then_epb : list byte :=
  bytes_of [1; 2; 3; 4; 5; 6; 7; 8; 9; 10; 11; 12; 13; 14; 15; 16] ++ sample_epb.

(** A host whose dpkt readers yield one packet and then raise, as a reader
    does on a capture that is damaged after its first packet. *)
Definition dpkt_cut_short : Dpkt :=
  let reader :=
    {| rd_interfaces := Some [(65535, 1)];
       rd_items := [(1.5%float, bytes_of [0xde; 0xad; 0xbe; 0xef])];
       rd_raises := Some (DpktError 1) |} in
  {| DPKT_AVAILABLE := true;
     pcap_Reader := fun _ => Ok reader;
     pcapng_Reader := fun _ => Ok reader |}.

(** A file system whose file cannot be opened. *)
Definition unreadable (errno : Z) : FileSystem :=
  {| fs_exists := fun _ => true;
     fs_getsize := fun _ => 1%nat;
     fs_open := fun _ _ => Raise (OSError errno) |}.

(** A classic file with two copies of record 1 whose second record header
    cannot be read. *)
Definition faulty_classic : File :=
  {| content := le_global_header ++ le_record1 ++ le_record1;
     fault := Some (60%nat, 5) |}.

(** The global header of a big-endian classic file: version 2.4, snaplen
    65535, link type 1. *)
Definition be_global_header : list byte :=
  bytes_of [0xa1; 0xb2; 0xc3; 0xd4;  0; 2;  0; 4;  0; 0; 0; 0;  0; 0; 0; 0;
            0; 0; 0xff; 0xff;  0; 0; 0; 1].

(** A record with no payload, taken at second 1. *)
Definition record0 : PacketRecord :=
  {| ts_sec := 1; ts_frac := 0; incl_len := 0; orig_len := 0; payload := [] |}.

Definition le_record0 : list byte :=
  bytes_of [1; 0; 0; 0;  0; 0; 0; 0;  0; 0; 0; 0;  0; 0; 0; 0].

Definition be_record0 : list byte :=
  bytes_of [0; 0; 0; 1;  0; 0; 0; 0;  0; 0; 0; 0;  0; 0; 0; 0].

(** A classic file of two records, record 1 and the record without
    payload, whose second record header cannot be read. *)
Definition transient_classic : File :=
  {| content := le_global_header ++ le_record1 ++ le_record0;
     fault := Some (60%nat, 5) |}.

(** A file system whose file is [transient_classic] the first two times it
    is opened and reads well from then on. *)
Definition transient_fs : FileSystem :=
  {| fs_exists := fun _ => true;
     fs_getsize := fun _ => length (content transient_classic);
     fs_open := fun _ k =>
       match k with
       | O | S O => Ok transient_classic
       | _ => Ok (healthy (content transient_classic))
       end |}.

(** A host whose [dpkt.pcap.Reader] yields the two records of
    [transient_classic], as dpkt does on that file when it reads well. *)
Definition dpkt_reads_records : Dpkt :=
  {| DPKT_AVAILABLE := true;
     pcap_Reader := fun _ =>
       Ok {| rd_interfaces := None;
             rd_items := [(1700000000.5%float, record1_payload);
                          (1%float, [])];
             rd_raises := None |};
     pcapng_Reader := fun _ => Raise (DpktError 0) |}.

(** The packet the classic reader makes of the record whose 16-byte header
    is at offset [off] of [data]: the payload bytes that are there, padded
    to the declared length. *)
Definition record_packet (lt nanosecond_precision : bool) (data : list byte)
    (off : nat) : QuantumPacket :=
  let incl_len := field lt (slice (off + 8) (off + 12) data) in
  new_packet
    (pad_packet (slice (off + 16) (off + 16 + Z.to_nat incl_len) data) incl_len)
    (classic_timestamp nanosecond_precision
       (field lt (slice off (off + 4) data))
       (field lt (slice (off + 4) (off + 8) data))).

(** [scanned_block data p]: [p] is the packet of a block of type 6 and
    declared length at least 32 at an offset the walk of the scan reaches,
    with its payload inside the buffer. *)
Definition scanned_block (data : list byte) (p : QuantumPacket) : Prop :=
  exists pos,
    reaches data pos
    /\ u32_at data pos = 6
    /\ 32 <= u32_at data (pos + 4)
    /\ p = epb_packet data pos
    /\ Z.of_nat (length (raw_data p)) = u32_at data (pos + 12)
    /\ (pos + 16 + length (raw_data p) <= length data)%nat.

(** A host whose dpkt readers yield one packet and end normally; the pcapng
    reader knows of two interfaces. *)
Definition dpkt_reads_one : Dpkt :=
  {| DPKT_AVAILABLE := true;
     pcap_Reader := fun _ =>
       Ok {| rd_interfaces := None;
             rd_items := [(2.5%float, bytes_of [0xca; 0xfe])];
             rd_raises := None |};
     pcapng_Reader := fun _ =>
       Ok {| rd_interfaces := Some [(65535, 1); (262144, 105)];
             rd_items := [(2.5%float, bytes_of [0xca; 0xfe])];
             rd_raises := None |} |}.

(** A capture that begins with ff ff. *)
Definition sample_wireless : list byte :=
  bytes_of [0xff; 0xff; 0x01; 0x02; 0x03; 0x04; 0x05; 0x06].

(** ** Measuring a packet *)

(** The values [QuantumPacket.state] takes; [Unknown e] stands for the
    string "Unknown_" followed by [e] in four hex digits. *)
Inductive Protocol : Type :=
| IPv4
| ARP
| IPv6
| Unknown (eth_type : Z)
| Corrupted
| Too_Short.

(** What [collapse] writes in a packet: [state] ([None] until a
    measurement) and the two keys of [observables] (absent at first). *)
Record Measurement : Type := {
  state : option Protocol;
  protocol_measured : option bool;
  position_uncertainty : option float
}.

(** The double 6.62607015e-34. *)
Definition PLANCK_COGNITIVE : float := 0x1.b860bde023111p-111%float.

(** [protocols.get(eth_type, f"Unknown_{eth_type:04x}")]. *)
Definition protocol_of (eth_type : Z) : Protocol :=
  if eth_type =? 0x0800 then IPv4
  else if eth_type =? 0x0806 then ARP
  else if eth_type =? 0x86DD then IPv6
  else Unknown eth_type.

(** [struct.unpack('!H', bs)[0]]. *)
Definition unpack_H (bs : list byte) : result Z :=
  if (length bs =? 2)%nat then Ok (uint_be bs) else Raise StructError.

(** [collapse(observable)] on a packet whose [raw_data] is [data]: the
    value returned and the packet's measurement afterwards. *)
Definition collapse (observable : string) (data : list byte) (m : Measurement)
  : option Protocol * Measurement :=
  let m :=
    if String.eqb observable "protocol" then
      if (14 <=? length data)%nat then
        match unpack_H (slice 12 14 data) with
        | Ok eth_type =>
            {| state := Some (protocol_of eth_type);
               protocol_measured := Some true;
               position_uncertainty :=
                 Some (PrimFloat.div PLANCK_COGNITIVE
                         (float_of_int (Z.max (Z.of_nat (length data)) 1))) |}
        | Raise _ =>
            {| state := Some Corrupted;
               protocol_measured := protocol_measured m;
               position_uncertainty := position_uncertainty m |}
        end
      else
        {| state := Some Too_Short;
           protocol_measured := protocol_measured m;
           position_uncertainty := position_uncertainty m |}
    else m in
  (state m, m).

(** The four bytes of a 32-bit number, least significant first. *)
Definition le32 (n : Z) : list byte :=
  [byte_of_Z n; byte_of_Z (n / 256); byte_of_Z (n / 65536);
   byte_of_Z (n / 16777216)].

(** A record header at second 0 that declares [L] payload bytes. *)
Definition header_declaring (L : Z) : list byte :=
  repeat Byte.x00 8 ++ le32 L ++ repeat Byte.x00 4.

(** ** The entanglement witness *)

(** [bs.decode('ascii', errors='ignore')]: the bytes below 128. *)
Definition decode_ascii_ignore (bs : list byte) : list byte :=
  filter (fun b => Z_of_byte b <? 128) bs.

(** [str.lower()] on ASCII text. *)
Definition lower (s : list byte) : list byte :=
  map (fun b => if (65 <=? Z_of_byte b) && (Z_of_byte b <=? 90)
                then byte_of_Z (Z_of_byte b + 32) else b) s.

Fixpoint starts_with (s pattern : list byte) : bool :=
  match pattern, s with
  | [], _ => true
  | _ :: _, [] => false
  | a :: pattern', b :: s' => Byte.eqb a b && starts_with s' pattern'
  end.

(** [pattern in s]. *)
Fixpoint contains (s pattern : list byte) : bool :=
  starts_with s pattern
  || match s with
     | [] => false
     | _ :: s' => contains s' pattern
     end.

(** ['password', '123', 'admin', 'login', 'auth']. *)
Definition common_patterns : list (list byte) :=
  map list_byte_of_string
    ["password"%string; "123"%string; "admin"%string; "login"%string;
     "auth"%string].

(** [patterns[pattern] += 1] on a [defaultdict(int)], kept as the list of
    its items in insertion order. *)
Fixpoint increment (pattern : list byte) (patterns : list (list byte * Z))
  : list (list byte * Z) :=
  match patterns with
  | [] => [(pattern, 1)]
  | (key, count) :: rest =>
      if list_eq_dec Byte.byte_eq_dec key pattern
      then (key, count + 1) :: rest
      else (key, count) :: increment pattern rest
  end.

(** [packet.raw_data[:100].decode('ascii', errors='ignore').lower()]. *)
Definition data_str (packet : QuantumPacket) : list byte :=
  lower (decode_ascii_ignore (firstn 100 (raw_data packet))).

(** The dict [patterns] after the loop over [parser.packets[:1000]]. *)
Definition count_patterns (packets : list QuantumPacket) : list (list byte * Z) :=
  fold_left
    (fun patterns packet =>
       fold_left
         (fun patterns pattern =>
            if contains (data_str packet) pattern
            then increment pattern patterns else patterns)
         common_patterns patterns)
    (firstn 1000 packets) [].

(** [PasswordFieldAnalyzer._compute_entanglement_witness(parser)], as a
    function of [parser.packets]; 0.1 and 2.8 are the doubles Python reads
    these literals as. *)
Definition _compute_entanglement_witness (packets : list QuantumPacket) : float :=
  match map snd (count_patterns packets) with
  | [] => 2%float
  | first :: others =>
      let max_pattern := fold_left Z.max others first in
      let total_patterns := fold_left Z.add (first :: others) 0 in
      let S :=
        if 0 <? total_patterns
        then PrimFloat.add (float_of_int 2)
               (PrimFloat.mul 0x1.999999999999ap-4%float
                  (true_div max_pattern total_patterns))
        else float_of_int 2 in
      if PrimFloat.ltb 0x1.6666666666666p+1%float S
      then 0x1.6666666666666p+1%float
      else S
  end.

(** The patterns that occur in what is looked at of a packet. *)
Definition keywords_in (packet : QuantumPacket) : list (list byte) :=
  filter (contains (data_str packet)) common_patterns.

(** A packet that says "LOGIN ok" after a byte that is not ASCII. *)
Definition login_packet : QuantumPacket :=
  new_packet (Byte.xff :: list_byte_of_string "LOGIN ok"%string) 0%float.

(** * Properties *)

(** ** Division as Python does it *)

Example true_div_half : true_div 500000 1000000 = 0.5%float.
Proof. vm_compute. reflexivity. Qed.

Example true_div_third : true_div 1 3 = (1 / 3)%float.
Proof. vm_compute. reflexivity. Qed.

(** Above 2^53 an int is rounded to the nearest double, ties to even. *)
Example true_div_ties :
  true_div (2 ^ 53 + 1) 1 = 9007199254740992%float
  /\ true_div (2 ^ 53 + 3) 1 = 9007199254740996%float.
Proof. split; vm_compute; reflexivity. Qed.

Example true_div_u64_max :
  true_div 18446744073709551615 1000000 = 0x1.0c6f7a0b5ed8dp+44%float.
Proof. vm_compute. reflexivity. Qed.

(** ** Loops and readers in general *)

Ltac unfold_monad :=
  unfold bind, try_except, lift, ret, raise, modify, get in *.

Lemma add_packets_nil self : add_packets [] self = self.
Proof. destruct self; unfold add_packets; simpl. now rewrite app_nil_r. Qed.

Lemma add_packets_app l1 l2 self :
  add_packets l2 (add_packets l1 self) = add_packets (l1 ++ l2) self.
Proof. unfold add_packets; simpl. now rewrite app_assoc. Qed.

Lemma append_packet_add p self : append_packet p self = add_packets [p] self.
Proof. reflexivity. Qed.

(** More fuel does not change the outcome of a loop that ended. *)
Lemma while_more_fuel {S} (body : S -> M (ctl S)) fuel :
  forall extra s self r,
    while fuel body s self = Some r ->
    while (fuel + extra) body s self = Some r.
Proof.
  induction fuel as [|fuel IH]; intros extra s self r H; simpl in *.
  - discriminate.
  - unfold bind in *.
    destruct (body s self) as [[[c|e] self']|]; try assumption.
    destruct c; [now apply IH | assumption].
Qed.

Lemma while_fuel_le {S} (body : S -> M (ctl S)) fuel fuel' s self r :
  (fuel <= fuel')%nat ->
  while fuel body s self = Some r ->
  while fuel' body s self = Some r.
Proof.
  intros Hle H. replace fuel' with (fuel + (fuel' - fuel))%nat by lia.
  now apply while_more_fuel.
Qed.

(** A turn that goes round again costs one unit of fuel. *)
Lemma while_continue {S} (body : S -> M (ctl S)) fuel s self s' self' :
  body s self = Some (Ok (Continue s'), self') ->
  while (Datatypes.S fuel) body s self = while fuel body s' self'.
Proof. intros H; simpl; unfold bind; now rewrite H. Qed.

Lemma while_break {S} (body : S -> M (ctl S)) fuel s self s' self' :
  body s self = Some (Ok (Break s'), self') ->
  while (Datatypes.S fuel) body s self = Some (Ok s', self').
Proof. intros H; simpl; unfold bind; now rewrite H. Qed.

(** Draining a reader appends its items, in order, then raises or not. *)
Lemma for_each_append (items : list (float * list byte)) self :
  for_each items
    (fun item =>
       let '(ts, buf) := item in modify (append_packet (new_packet buf ts))) self
  = Some (Ok tt,
          add_packets (map (fun item => new_packet (snd item) (fst item)) items)
                      self).
Proof.
  revert self; induction items as [|[ts buf] items IH]; intros self; simpl.
  - unfold ret. now rewrite add_packets_nil.
  - unfold bind, modify. rewrite IH, append_packet_add, add_packets_app.
    reflexivity.
Qed.

Lemma drain_spec reader self :
  drain reader self
  = Some (match rd_raises reader with Some e => Raise e | None => Ok tt end,
          add_packets (packets_of reader) self).
Proof.
  unfold drain, bind. rewrite for_each_append.
  destruct (rd_raises reader); reflexivity.
Qed.

(** The loop of [_parse_pcapng] appends a packet for each item whose bytes
    spell a number and stops with [ValueError] at the first that do not. *)
Lemma for_each_swapped (items : list (float * list byte)) self :
  for_each items
    (fun item =>
       let '(buf, ts) := item in
       qpacket <- lift (QuantumPacket_init (VFloat buf) (VBytes ts)) ;;
       modify (append_packet qpacket)) self
  = Some (if all_numbers items then Ok tt
          else Raise (ValueError CouldNotConvertToFloat),
          add_packets (swapped_packets items) self).
Proof.
  revert self; induction items as [|[ts buf] items IH]; intros self.
  - simpl. unfold ret. now rewrite add_packets_nil.
  - cbn [for_each all_numbers forallb swapped_packets snd].
    unfold bind at 1. unfold bind at 1.
    unfold QuantumPacket_init, to_float, _set_raw_data.
    destruct (float_of_bytes buf) as [x|]; cbn [lift ret raise andb].
    + unfold modify at 1. rewrite IH, append_packet_add, add_packets_app.
      reflexivity.
    + now rewrite add_packets_nil.
Qed.

Lemma drain_pcapng_spec reader self :
  drain_pcapng reader self
  = Some (if all_numbers (rd_items reader)
          then match rd_raises reader with
               | Some e => Raise e
               | None => Ok tt
               end
          else Raise (ValueError CouldNotConvertToFloat),
          add_packets (swapped_packets (rd_items reader)) self).
Proof.
  unfold drain_pcapng, bind. rewrite for_each_swapped.
  destruct (all_numbers _); [|reflexivity].
  destruct (rd_raises reader); reflexivity.
Qed.

(** ** Reading a healthy file *)

Lemma read_healthy f pos n :
  fault f = None -> read f pos n = Ok (firstn n (skipn pos (content f))).
Proof. intros H; unfold read; now rewrite H. Qed.

Lemma firstn_skipn_middle {A} (pre mid post : list A) :
  firstn (length mid) (skipn (length pre) (pre ++ mid ++ post)) = mid.
Proof.
  rewrite skipn_app, skipn_all, Nat.sub_diag; simpl.
  rewrite firstn_app, firstn_all, Nat.sub_diag; simpl.
  now rewrite app_nil_r.
Qed.

Lemma read_middle f pre mid post :
  fault f = None -> content f = pre ++ mid ++ post ->
  read f (length pre) (length mid) = Ok mid.
Proof.
  intros Hf Hc. rewrite read_healthy, Hc by assumption.
  now rewrite firstn_skipn_middle.
Qed.

(** A read that asks for more than what is left returns what is left. *)
Lemma read_rest f pre rest n :
  fault f = None -> content f = pre ++ rest -> (length rest <= n)%nat ->
  read f (length pre) n = Ok rest.
Proof.
  intros Hf Hc Hn. rewrite read_healthy, Hc by assumption.
  rewrite skipn_app, skipn_all, Nat.sub_diag; simpl.
  now rewrite firstn_all2.
Qed.

Lemma unpack_IIII_length lt bs h : unpack_IIII lt bs = Ok h -> length bs = 16%nat.
Proof.
  unfold unpack_IIII. destruct (Nat.eqb_spec (length bs) 16); [auto | discriminate].
Qed.

(** ** The classic reader on well-formed records *)

Section ClassicLoop.

Variables (lt nano : bool) (f : File).
Hypothesis f_healthy : fault f = None.

Lemma classic_turn_record pre hdr r rest self :
  content f = pre ++ hdr ++ payload r ++ rest ->
  unpack_IIII lt hdr = Ok (ts_sec r, ts_frac r, incl_len r, orig_len r) ->
  Z.of_nat (length (payload r)) = incl_len r ->
  classic_turn lt nano f (length pre) self
  = Some (Ok (Continue (length (pre ++ hdr ++ payload r))),
          add_packets [packet_of nano r] self).
Proof.
  intros Hc Hu Hl. pose proof (unpack_IIII_length _ _ _ Hu) as H16.
  unfold classic_turn. unfold_monad.
  assert (R1 : read f (length pre) 16 = Ok hdr).
  { rewrite <- H16. now apply read_middle with (post := payload r ++ rest). }
  rewrite R1, H16; simpl. rewrite Hu; simpl.
  assert (R2 : read f (length pre + 16) (Z.to_nat (incl_len r)) = Ok (payload r)).
  { rewrite <- Hl, Nat2Z.id, <- H16, <- length_app.
    apply read_middle with (post := rest); [assumption|].
    now rewrite <- app_assoc. }
  rewrite R2; simpl. unfold pad_packet.
  destruct (Z.ltb_spec (Z.of_nat (length (payload r))) (incl_len r)); [lia|].
  rewrite !length_app, H16, Nat.add_assoc. reflexivity.
Qed.

(** Fewer than 16 bytes remain: the loop is left, nothing is appended. *)
Lemma classic_turn_eof pre tail self :
  content f = pre ++ tail -> (length tail < 16)%nat ->
  classic_turn lt nano f (length pre) self
  = Some (Ok (Break (length pre)), self).
Proof.
  intros Hc Ht. unfold classic_turn. unfold_monad.
  rewrite (read_rest f pre tail 16) by (auto; lia); simpl.
  destruct (Nat.ltb_spec (length tail) 16); [reflexivity | lia].
Qed.

(** A header whose payload is cut short: the packet is padded with zero
    bytes to the declared length. *)
Lemma classic_turn_short pre hdr sec frac L orig present self :
  content f = pre ++ hdr ++ present ->
  unpack_IIII lt hdr = Ok (sec, frac, L, orig) ->
  Z.of_nat (length present) < L ->
  classic_turn lt nano f (length pre) self
  = Some (Ok (Continue (length (pre ++ hdr ++ present))),
          add_packets
            [new_packet
               (present ++ repeat Byte.x00 (Z.to_nat (L - Z.of_nat (length present))))
               (classic_timestamp nano sec frac)] self).
Proof.
  intros Hc Hu Hl. pose proof (unpack_IIII_length _ _ _ Hu) as H16.
  unfold classic_turn. unfold_monad.
  assert (R1 : read f (length pre) 16 = Ok hdr).
  { rewrite <- H16. now apply read_middle with (post := present). }
  rewrite R1, H16; simpl. rewrite Hu; simpl.
  assert (R2 : read f (length pre + 16) (Z.to_nat L) = Ok present).
  { rewrite <- H16, <- length_app.
    apply read_rest; [assumption | now rewrite <- app_assoc | lia]. }
  rewrite R2; simpl. unfold pad_packet.
  destruct (Z.ltb_spec (Z.of_nat (length present)) L); [|lia].
  rewrite !length_app, H16, Nat.add_assoc. reflexivity.
Qed.

(** The loop walks through complete records one turn each. *)
Lemma classic_loop_records body rs :
  holds_records lt body rs ->
  forall pre tail fuel self,
    content f = pre ++ body ++ tail ->
    while (length rs + fuel) (classic_turn lt nano f) (length pre) self
    = while fuel (classic_turn lt nano f) (length (pre ++ body))
        (add_packets (map (packet_of nano) rs) self).
Proof.
  induction 1 as [|hdr r rest rs Hu Hl Hrest IH]; intros pre tail fuel self Hc.
  - simpl. now rewrite app_nil_r, add_packets_nil.
  - cbn [length Nat.add map].
    rewrite (while_continue _ _ _ _ _ _
               (classic_turn_record pre hdr r (rest ++ tail) self
                  ltac:(now rewrite Hc, <- !app_assoc) Hu Hl)).
    rewrite (IH (pre ++ hdr ++ payload r) tail fuel).
    + rewrite add_packets_app. simpl. now rewrite <- !app_assoc.
    + now rewrite Hc, <- !app_assoc.
Qed.

Lemma holds_records_length body rs :
  holds_records lt body rs -> (16 * length rs <= length body)%nat.
Proof.
  induction 1 as [|hdr r rest rs Hu Hl Hrest IH]; simpl; [lia|].
  pose proof (unpack_IIII_length _ _ _ Hu). rewrite !length_app. lia.
Qed.

End ClassicLoop.

Section ClassicFile.

Variables (endian : option Endian) (format_type : option FormatType).
Variables (f : File) (global_header body : list byte) (rs : list PacketRecord).
Hypothesis f_healthy : fault f = None.
Hypothesis header_size : length global_header = 24%nat.
Hypothesis body_records : holds_records (is_little endian) body rs.

Let lt := is_little endian.
Let nano := is_nanosecond format_type.

(** Up to the loop, and through the complete records. *)
Lemma classic_attempt_records tail self :
  content f = global_header ++ body ++ tail ->
  classic_attempt (Ok f) endian format_type self
  = (while (S (length (content f)) - length rs) (classic_turn lt nano f)
           (length (global_header ++ body)) ;;; ret tt)
      (add_packets (map (packet_of nano) rs)
         (set_format_info (classic_info endian format_type global_header) self)).
Proof.
  intros Hc. unfold classic_attempt.
  unfold bind at 1. unfold lift at 1. unfold ret at 1.
  unfold bind at 1.
  assert (R : read f 0 24 = Ok global_header).
  { rewrite <- header_size. apply (read_middle f [] global_header (body ++ tail));
      assumption. }
  rewrite R. unfold lift at 1. unfold ret at 1.
  assert (E : (length global_header =? 24)%nat = true)
    by now rewrite header_size.
  unfold bind at 1. unfold unpack_IHHIIII. rewrite E. unfold lift at 1. unfold ret at 1. cbv beta iota.
  unfold bind at 1. unfold modify at 1.
  fold lt nano.
  pose proof (holds_records_length _ _ _ body_records) as Hlen.
  assert (Hfuel : S (length (content f))
                  = (length rs + (S (length (content f)) - length rs))%nat).
  { rewrite Hc, !length_app. lia. }
  unfold bind at 1.
  rewrite Hfuel at 1.
  rewrite (classic_loop_records lt nano f f_healthy body rs body_records
             global_header tail) by assumption.
  reflexivity.
Qed.

(** The file ends with fewer than 16 bytes after the last complete
    record. *)
Lemma classic_attempt_complete tail self :
  content f = global_header ++ body ++ tail -> (length tail < 16)%nat ->
  classic_attempt (Ok f) endian format_type self
  = Some (Ok tt,
          add_packets (map (packet_of nano) rs)
            (set_format_info (classic_info endian format_type global_header) self)).
Proof.
  intros Hc Ht. rewrite (classic_attempt_records tail) by assumption.
  pose proof (holds_records_length _ _ _ body_records) as Hlen.
  unfold bind.
  assert (Hc' : content f = (global_header ++ body) ++ tail)
    by now rewrite <- app_assoc.
  assert (Hle : (1 <= S (length (content f)) - length rs)%nat)
    by (rewrite Hc, !length_app; lia).
  rewrite (while_fuel_le _ 1 _ _ _ _ Hle
             (while_break _ 0 _ _ _ _
                (classic_turn_eof lt nano f f_healthy _ tail _ Hc' Ht))).
  reflexivity.
Qed.

(** The file ends inside the payload of one more record. *)
Lemma classic_attempt_truncated hdr sec frac L orig present self :
  content f = global_header ++ body ++ hdr ++ present ->
  unpack_IIII lt hdr = Ok (sec, frac, L, orig) ->
  Z.of_nat (length present) < L ->
  classic_attempt (Ok f) endian format_type self
  = Some (Ok tt,
          add_packets
            (map (packet_of nano) rs
             ++ [new_packet
                   (present
                    ++ repeat Byte.x00 (Z.to_nat (L - Z.of_nat (length present))))
                   (classic_timestamp nano sec frac)])
            (set_format_info (classic_info endian format_type global_header) self)).
Proof.
  intros Hc Hu Hl. rewrite (classic_attempt_records (hdr ++ present)) by assumption.
  pose proof (holds_records_length _ _ _ body_records) as Hlen.
  pose proof (unpack_IIII_length _ _ _ Hu) as H16.
  unfold bind.
  assert (Hc' : content f = (global_header ++ body) ++ hdr ++ present)
    by now rewrite <- app_assoc.
  assert (Hend : content f = ((global_header ++ body) ++ hdr ++ present) ++ [])
    by now rewrite app_nil_r.
  pose proof (classic_turn_short lt nano f f_healthy _ hdr sec frac L orig present
                (add_packets (map (packet_of nano) rs)
                   (set_format_info (classic_info endian format_type global_header) self))
                Hc' Hu Hl) as T1.
  pose proof (classic_turn_eof lt nano f f_healthy _ []
                (add_packets
                   [new_packet
                      (present
                       ++ repeat Byte.x00 (Z.to_nat (L - Z.of_nat (length present))))
                      (classic_timestamp nano sec frac)]
                   (add_packets (map (packet_of nano) rs)
                      (set_format_info (classic_info endian format_type global_header) self)))
                Hend ltac:(simpl; lia)) as T2.
  assert (Hle : (2 <= S (length (content f)) - length rs)%nat)
    by (rewrite Hc, !length_app; lia).
  rewrite (while_fuel_le _ 2 _ _ _ _ Hle
             (eq_trans (while_continue _ 1 _ _ _ _ T1) (while_break _ 0 _ _ _ _ T2))).
  now rewrite add_packets_app.
Qed.

End ClassicFile.

(** A classic attempt that does not raise is the whole of
    [_parse_classic_pcap]. *)
Lemma _parse_classic_pcap_ok P opens endian format_type self self' :
  classic_attempt (opens 0%nat) endian format_type self = Some (Ok tt, self') ->
  _parse_classic_pcap P opens endian format_type self = Some (Ok tt, self').
Proof. intros H. unfold _parse_classic_pcap, try_except. now rewrite H. Qed.

Lemma holds_records_app lt b1 rs1 b2 rs2 :
  holds_records lt b1 rs1 -> holds_records lt b2 rs2 ->
  holds_records lt (b1 ++ b2) (rs1 ++ rs2).
Proof.
  induction 1 as [|hdr r rest rs Hu Hl Hrest IH]; intros H2; simpl; [assumption|].
  rewrite <- !app_assoc. now constructor; [..| apply IH].
Qed.

(** [parse_file] with a filename argument, up to the dispatch. *)
Lemma parse_file_named P fs path self :
  truthy (Some path) = true ->
  parse_file P fs (Some path) self
  = (let opens := fs_open fs path in
     let '(endian, format_type) := detect_format (opens 0%nat) in
     match format_type with
     | Some pcapng => _parse_pcapng P (later opens)
     | Some classic | Some nanosecond =>
         _parse_classic_pcap P (later opens) endian format_type
     | _ =>
         if DPKT_AVAILABLE P then _parse_with_dpkt P (opens 1%nat)
         else raise (ValueError UnknownFileFormat)
     end) (set_filename (Some path) self).
Proof.
  intros Ht. unfold parse_file. rewrite Ht.
  unfold bind at 1. unfold modify at 1. unfold bind at 1. unfold get at 1.
  cbn [filename set_filename]. rewrite Ht. reflexivity.
Qed.

(** The classic reader on a healthy file that ends with fewer than 16 bytes
    after its last complete record. *)
Lemma classic_reader_complete
    P opens endian format_type f global_header body tail rs self :
  opens 0%nat = Ok f -> fault f = None ->
  content f = global_header ++ body ++ tail ->
  length global_header = 24%nat ->
  holds_records (is_little endian) body rs ->
  (length tail < 16)%nat ->
  _parse_classic_pcap P opens endian format_type self
  = Some (Ok tt,
          add_packets (map (packet_of (is_nanosecond format_type)) rs)
            (set_format_info (classic_info endian format_type global_header) self)).
Proof.
  intros Ho Hf Hc Hh Hr Ht.
  apply _parse_classic_pcap_ok. rewrite Ho.
  now apply (classic_attempt_complete endian format_type f global_header body rs
               Hf Hh Hr tail).
Qed.

(** ** The claims on the classic reader *)

(** C5: when fewer than 16 bytes remain at a record-header boundary of a
    classic file, [_parse_classic_pcap] leaves its loop there without
    raising; the session then holds, after the packets it had, exactly one
    packet per complete record, in file order, and none for the cut
    header. *)
Theorem C5_short_header_ends_the_loop
    P opens endian format_type f global_header body tail rs self :
  opens 0%nat = Ok f -> fault f = None ->
  content f = global_header ++ body ++ tail ->
  length global_header = 24%nat ->
  holds_records (is_little endian) body rs ->
  (length tail < 16)%nat ->
  exists self',
    _parse_classic_pcap P opens endian format_type self = Some (Ok tt, self')
    /\ packets self'
       = packets self ++ map (packet_of (is_nanosecond format_type)) rs.
Proof.
  intros Ho Hf Hc Hh Hr Ht. eexists; split.
  - now apply (classic_reader_complete P opens endian format_type f
                 global_header body tail rs).
  - reflexivity.
Qed.

(** The bytes of record 1 hold [record1], read little-endian. *)
Lemma le_record1_holds : holds_records true le_record1 [record1].
Proof.
  exact (holds_cons true le_record1_header record1 [] []
           eq_refl eq_refl (holds_nil true)).
Defined.

(** The scenario's header and first record, followed by three stray bytes. *)
Lemma C5_witness :
  exists self',
    _parse_classic_pcap no_dpkt
      (always (healthy (le_global_header ++ le_record1 ++ bytes_of [1; 2; 3])))
      (Some little) (Some classic) (new_parser None)
    = Some (Ok tt, self')
    /\ packets self'
       = packets (new_parser None)
         ++ map (packet_of (is_nanosecond (Some classic))) [record1].
Proof.
  apply (C5_short_header_ends_the_loop no_dpkt _ (Some little) (Some classic)
           (healthy (le_global_header ++ le_record1 ++ bytes_of [1; 2; 3]))
           le_global_header le_record1 (bytes_of [1; 2; 3]) [record1]);
    try reflexivity.
  - exact le_record1_holds.
  - simpl; lia.
Defined.

(** C3 (amended): when the final record of a classic file declares [L]
    payload bytes and only [L - k] are present ([0 < k < L]),
    [_parse_classic_pcap] does not raise and appends, after one packet per
    earlier record, a packet whose payload is the bytes present followed by
    [k] zero bytes, [L] bytes in all. A file that has the [k] missing bytes
    gives as many packets, and when those bytes are zeros it leaves the
    session in the very same state: the session keeps no count of padded
    records. *)
Theorem C3_cut_payload_is_zero_padded
    P opens endian format_type f global_header body hdr present rs
    sec frac L orig k self :
  opens 0%nat = Ok f -> fault f = None ->
  content f = global_header ++ body ++ hdr ++ present ->
  length global_header = 24%nat ->
  holds_records (is_little endian) body rs ->
  unpack_IIII (is_little endian) hdr = Ok (sec, frac, L, orig) ->
  0 < k < L -> Z.of_nat (length present) = L - k ->
  exists self' last,
    _parse_classic_pcap P opens endian format_type self = Some (Ok tt, self')
    /\ packets self'
       = packets self
         ++ map (packet_of (is_nanosecond format_type)) rs ++ [last]
    /\ raw_data last = present ++ repeat Byte.x00 (Z.to_nat k)
    /\ Z.of_nat (length (raw_data last)) = L
    /\ forall missing f' opens',
         length missing = Z.to_nat k ->
         opens' 0%nat = Ok f' -> fault f' = None ->
         content f' = global_header ++ body ++ hdr ++ present ++ missing ->
         exists self'',
           _parse_classic_pcap P opens' endian format_type self
           = Some (Ok tt, self'')
           /\ length (packets self'') = length (packets self')
           /\ (missing = repeat Byte.x00 (Z.to_nat k) -> self'' = self').
Proof.
  intros Ho Hf Hc Hh Hr Hu Hk Hp.
  assert (Hlt : Z.of_nat (length present) < L) by lia.
  assert (Hk' : L - Z.of_nat (length present) = k) by lia.
  eexists; eexists; split; [|split; [|split; [|split]]].
  - apply _parse_classic_pcap_ok. rewrite Ho.
    now apply (classic_attempt_truncated endian format_type f global_header body rs
                 Hf Hh Hr hdr sec frac L orig present).
  - reflexivity.
  - simpl. now rewrite Hk'.
  - simpl. rewrite length_app, repeat_length. lia.
  - intros missing f' opens' Hm Ho' Hf' Hc'.
    set (r := {| ts_sec := sec; ts_frac := frac; incl_len := L; orig_len := orig;
                 payload := present ++ missing |}).
    assert (Hr' : holds_records (is_little endian)
                    (body ++ hdr ++ payload r ++ []) (rs ++ [r])).
    { apply holds_records_app; [assumption|].
      constructor; [assumption | | constructor].
      simpl. rewrite length_app. lia. }
    eexists; split; [|split].
    + apply _parse_classic_pcap_ok. rewrite Ho'.
      apply (classic_attempt_complete endian format_type f' global_header _ _
               Hf' Hh Hr' []); [|simpl; lia].
      rewrite Hc'. simpl. now rewrite ?app_nil_r, <- ?app_assoc.
    + simpl. rewrite !length_app, !length_map, !length_app. reflexivity.
    + intros ->. rewrite Hk', map_app. reflexivity.
Qed.

(** The two-record scenario: the second record declares 20 bytes and has 10. *)
Lemma C3_witness :
  exists self' last,
    _parse_classic_pcap no_dpkt (always (healthy scenario))
      (Some little) (Some classic) (new_parser None)
    = Some (Ok tt, self')
    /\ packets self'
       = packets (new_parser None)
         ++ map (packet_of (is_nanosecond (Some classic))) [record1] ++ [last]
    /\ raw_data last = record2_present ++ repeat Byte.x00 (Z.to_nat 10)
    /\ Z.of_nat (length (raw_data last)) = 20
    /\ forall missing f' opens',
         length missing = Z.to_nat 10 ->
         opens' 0%nat = Ok f' -> fault f' = None ->
         content f'
         = le_global_header ++ le_record1 ++ le_record2_header
           ++ record2_present ++ missing ->
         exists self'',
           _parse_classic_pcap no_dpkt opens' (Some little) (Some classic)
             (new_parser None)
           = Some (Ok tt, self'')
           /\ length (packets self'') = length (packets self')
           /\ (missing = repeat Byte.x00 (Z.to_nat 10) -> self'' = self').
Proof.
  apply (C3_cut_payload_is_zero_padded no_dpkt _ (Some little) (Some classic)
           (healthy scenario) le_global_header le_record1 le_record2_header
           record2_present [record1] 1700000001 0 20 20 10);
    try reflexivity.
  - exact le_record1_holds.
  - lia.
Defined.

(** C3, the recovered-record counter: the cut file and the file whose last
    ten payload bytes are zeros on disk leave the session in the same state,
    so nothing the session holds goes up by one for the first and stays put
    for the second. *)
Lemma C3_no_recovered_counter :
  ~ exists recovered : CognitivePCAPParser -> Z,
      (forall self',
         parse_file no_dpkt (one_file scenario) (Some "cut.pcap"%string)
           (new_parser None) = Some (Ok tt, self') ->
         recovered self' = recovered (new_parser None) + 1)
      /\ (forall self',
            parse_file no_dpkt (one_file scenario_padded) (Some "cut.pcap"%string)
              (new_parser None) = Some (Ok tt, self') ->
            recovered self' = recovered (new_parser None)).
Proof.
  intros [recovered [Hcut Hfull]].
  assert (E : parse_file no_dpkt (one_file scenario) (Some "cut.pcap"%string)
                (new_parser None)
              = parse_file no_dpkt (one_file scenario_padded)
                  (Some "cut.pcap"%string) (new_parser None))
    by (vm_compute; reflexivity).
  assert (R : exists self',
             parse_file no_dpkt (one_file scenario) (Some "cut.pcap"%string)
               (new_parser None) = Some (Ok tt, self'))
    by (vm_compute; eexists; reflexivity).
  destruct R as [self' R].
  pose proof (Hcut _ R) as H1. rewrite E in R. pose proof (Hfull _ R) as H2.
  lia.
Qed.



(** The same record in a file sniffed as nanosecond: the fraction counts
    billionths. *)
Example nanosecond_timestamp :
  exists self',
    parse_file no_dpkt (one_file (le_nanosecond_header ++ le_record1))
      (Some "ns.pcap"%string) (new_parser None) = Some (Ok tt, self')
    /\ map timestamp (packets self') = [0x1.954fc40000831p+30%float]
    /\ fi_format (format_info self') = Some nanosecond.
Proof. eexists; repeat split; vm_compute; reflexivity. Qed.

(** The reader itself does not care which byte order a file declares: two
    files that hold the same records, one in each order, give the same
    packets when each is read in its own order. *)
Lemma classic_reader_byte_order_symmetry
    format_type f1 f2 h1 h2 body1 body2 rs self :
  fault f1 = None -> fault f2 = None ->
  content f1 = h1 ++ body1 -> content f2 = h2 ++ body2 ->
  length h1 = 24%nat -> length h2 = 24%nat ->
  holds_records true body1 rs -> holds_records false body2 rs ->
  exists s1 s2,
    classic_attempt (Ok f1) (Some little) format_type self = Some (Ok tt, s1)
    /\ classic_attempt (Ok f2) (Some big) format_type self = Some (Ok tt, s2)
    /\ packets s1 = packets s2.
Proof.
  intros Hf1 Hf2 Hc1 Hc2 Hh1 Hh2 Hr1 Hr2.
  eexists; eexists; split; [|split].
  - apply (classic_attempt_complete (Some little) format_type f1 h1 body1 rs
             Hf1 Hh1 Hr1 []); [now rewrite app_nil_r | simpl; lia].
  - apply (classic_attempt_complete (Some big) format_type f2 h2 body2 rs
             Hf2 Hh2 Hr2 []); [now rewrite app_nil_r | simpl; lia].
  - reflexivity.
Qed.

(** ** The scanning fallback *)

Lemma Z_of_byte_nonneg b : 0 <= Z_of_byte b.
Proof. unfold Z_of_byte. apply N2Z.is_nonneg. Qed.

Lemma uint_le_nonneg bs : 0 <= uint_le bs.
Proof.
  induction bs as [|b bs IH]; [simpl; lia|].
  change (0 <= Z_of_byte b + 256 * uint_le bs).
  pose proof (Z_of_byte_nonneg b). lia.
Qed.

Lemma u32_at_nonneg data pos : 0 <= u32_at data pos.
Proof. apply uint_le_nonneg. Qed.

Lemma slice_length {A} a b (l : list A) :
  (b <= length l)%nat -> length (slice a b l) = (b - a)%nat.
Proof. intros H. unfold slice. rewrite length_firstn, length_skipn. lia. Qed.

Lemma unpack_I_at data a b :
  (a + 4 = b)%nat -> (b <= length data)%nat ->
  unpack_I true (slice a b data) = Ok (u32_at data a).
Proof.
  intros <- H. unfold unpack_I, u32_at, field.
  rewrite slice_length by lia.
  replace (a + 4 - a)%nat with 4%nat by lia. reflexivity.
Qed.

Lemma extract_packet_spec data pos count self :
  (pos + 16 <= length data)%nat ->
  extract_packet data pos count self
  = if Z.of_nat (pos + 16) + u32_at data (pos + 12) <=? Z.of_nat (length data)
    then Some (Ok (count + 1)%nat, add_packets [epb_packet data pos] self)
    else Some (Ok count, self).
Proof.
  intros H. unfold extract_packet. unfold_monad.
  rewrite (unpack_I_at data (pos + 12) (pos + 16)) by lia.
  destruct (_ <=? _); [|reflexivity].
  rewrite (unpack_I_at data (pos + 8) (pos + 12)) by lia. reflexivity.
Qed.

(** A turn of the scanning loop, in one piece. *)
Lemma scan_turn_spec data pos count self :
  scan_turn data (pos, count) self
  = if scan_stops data pos
    then Some (Ok (Break (pos, count)), self)
    else Some (Ok (Continue (next_pos pos (u32_at data (pos + 4)),
                             count + length (block_packets data pos))%nat),
               add_packets (block_packets data pos) self).
Proof.
  unfold scan_turn, scan_stops.
  destruct (Nat.leb_spec (pos + 16) (length data)) as [H|H].
  - destruct (Nat.ltb_spec pos (length data)); [|lia]. cbn [negb orb].
    unfold bind at 1.
    rewrite (unpack_I_at data pos (pos + 4)) by lia. unfold lift at 1, ret at 1.
    unfold bind at 1. rewrite (unpack_I_at data (pos + 4) (pos + 8)) by lia.
    unfold lift at 1, ret at 1.
    destruct (_ || _); [reflexivity|].
    unfold block_packets.
    destruct ((u32_at data pos =? 6) && (32 <=? u32_at data (pos + 4))).
    + unfold bind, try_except. rewrite extract_packet_spec by assumption.
      cbn [andb]. destruct (_ <=? _); unfold ret; cbn [length].
      * reflexivity.
      * now rewrite Nat.add_0_r, add_packets_nil.
    + cbn [andb length]. unfold bind, ret.
      now rewrite Nat.add_0_r, add_packets_nil.
  - cbn [negb orb]. destruct (Nat.ltb_spec pos (length data)); reflexivity.
Qed.

Lemma scan_stops_false data pos :
  scan_stops data pos = false ->
  (pos + 16 <= length data)%nat
  /\ 1 <= u32_at data (pos + 4) <= Z.of_nat (length data) - Z.of_nat pos.
Proof.
  unfold scan_stops. pose proof (u32_at_nonneg data (pos + 4)).
  destruct (Nat.leb_spec (pos + 16) (length data)); [|discriminate].
  destruct (Z.eqb_spec (u32_at data (pos + 4)) 0); [discriminate|].
  destruct (Z.ltb_spec (Z.of_nat (length data) - Z.of_nat pos)
              (u32_at data (pos + 4))); [discriminate|].
  intros _. lia.
Qed.

Lemma next_pos_spec pos block_len :
  0 <= block_len ->
  Z.of_nat (next_pos pos block_len)
  = Z.of_nat pos + block_len + (- block_len) mod 4.
Proof.
  intros H. unfold next_pos.
  destruct (Z.eqb_spec (block_len mod 4) 0); cbn [negb];
    rewrite Z2Nat.id; Z.div_mod_to_equations; lia.
Qed.

Lemma next_pos_grows pos block_len :
  1 <= block_len -> (pos < next_pos pos block_len)%nat.
Proof.
  intros H. pose proof (next_pos_spec pos block_len ltac:(lia)) as E.
  assert (0 <= (- block_len) mod 4) by (apply Z.mod_pos_bound; lia). lia.
Qed.

(** With more fuel than bytes left, the scanning loop ends, without an
    exception, and its count is the number of packets it appended. *)
Lemma scan_loop_ends data fuel :
  forall pos count self,
    (length data - pos < fuel)%nat ->
    exists pos' l,
      while fuel (scan_turn data) (pos, count) self
      = Some (Ok (pos', (count + length l)%nat), add_packets l self).
Proof.
  induction fuel as [|fuel IH]; intros pos count self Hf; [lia|].
  destruct (scan_stops data pos) eqn:Hs.
  - exists pos, []. simpl length. rewrite Nat.add_0_r, add_packets_nil.
    apply while_break. now rewrite scan_turn_spec, Hs.
  - destruct (scan_stops_false _ _ Hs) as [H16 Hbl].
    pose proof (next_pos_grows pos _ (proj1 Hbl)) as Hg.
    destruct (IH (next_pos pos (u32_at data (pos + 4)))
                (count + length (block_packets data pos))%nat
                (add_packets (block_packets data pos) self) ltac:(lia))
      as [pos' [l Hl]].
    exists pos', (block_packets data pos ++ l).
    rewrite (while_continue _ _ _ _ _ _
               ltac:(rewrite scan_turn_spec, Hs; reflexivity)).
    rewrite Hl, add_packets_app, length_app, Nat.add_assoc. reflexivity.
Qed.

(** C10: every turn of the scanning loop either leaves the loop (fewer than
    16 bytes remain at the offset, or the declared block length is zero or
    larger than what remains) or moves the offset forward by the declared
    block length, which is at least 1, rounded up to a multiple of 4; and
    the loop over any buffer ends within the turns it is given, one more
    than the buffer has bytes. *)
Theorem C10_scanning_loop_terminates (data : list byte) :
  (forall pos count self,
     let block_len := u32_at data (pos + 4) in
     (scan_turn data (pos, count) self = Some (Ok (Break (pos, count)), self)
      /\ ((length data < pos + 16)%nat
          \/ block_len = 0
          \/ Z.of_nat (length data) - Z.of_nat pos < block_len))
     \/ (exists count' self',
           scan_turn data (pos, count) self
           = Some (Ok (Continue (next_pos pos block_len, count')), self')
           /\ 1 <= block_len
           /\ Z.of_nat (next_pos pos block_len)
              = Z.of_nat pos + block_len + (- block_len) mod 4
           /\ (pos < next_pos pos block_len)%nat))
  /\ (forall self, exists s self', scan data self = Some (Ok s, self')).
Proof.
  split.
  - intros pos count self block_len. rewrite scan_turn_spec.
    destruct (scan_stops data pos) eqn:Hs.
    + left; split; [reflexivity|]. unfold scan_stops in Hs.
      destruct (Nat.leb_spec (pos + 16) (length data)); [|left; lia].
      destruct (Z.eqb_spec (u32_at data (pos + 4)) 0); [right; left; assumption|].
      destruct (Z.ltb_spec (Z.of_nat (length data) - Z.of_nat pos)
                  (u32_at data (pos + 4))); [|discriminate].
      right; right; assumption.
    + right. destruct (scan_stops_false _ _ Hs) as [H16 Hbl].
      eexists; eexists; split; [reflexivity|].
      split; [apply Hbl | split].
      * apply next_pos_spec. subst block_len. lia.
      * apply next_pos_grows, Hbl.
  - intros self. unfold scan.
    destruct (scan_loop_ends data (S (length data)) 0%nat 0%nat self ltac:(lia))
      as [pos' [l Hl]].
    eexists; eexists; exact Hl.
Qed.







(** ** Strategies only append *)

Create HintDb steady.

Lemma steady_ret {A} (a : A) : steady (ret a).
Proof.
  exists (Some (Ok a)), []. intros self; split; [reflexivity|].
  intros r s [= <- <-]. now rewrite app_nil_r.
Qed.

Lemma steady_raise {A} e : steady (@raise A e).
Proof.
  exists (Some (Raise e)), []. intros self; split; [reflexivity|].
  intros r s [= <- <-]. now rewrite app_nil_r.
Qed.

Lemma steady_lift {A} (r : result A) : steady (lift r).
Proof. destruct r; [apply steady_ret | apply steady_raise]. Qed.

Lemma steady_modify g l :
  (forall self, packets (g self) = packets self ++ l) -> steady (modify g).
Proof.
  intros Hg. exists (Some (Ok tt)), l. intros self; split; [reflexivity|].
  intros r s [= <- <-]. apply Hg.
Qed.

Lemma steady_bind {A B} (m : M A) (k : A -> M B) :
  steady m -> (forall a, steady (k a)) -> steady (bind m k).
Proof.
  intros [o [l Hm]] Hk. destruct o as [[a|e]|].
  - destruct (Hk a) as [o2 [l2 Hk2]]. exists o2, (l ++ l2). intros self.
    destruct (Hm self) as [Ho Hp]. unfold bind.
    destruct (m self) as [[[a'|e'] s]|]; simpl in Ho; try discriminate.
    injection Ho as ->. destruct (Hk2 s) as [Ho2 Hp2]. split; [assumption|].
    intros r s' Hr. pose proof (Hp _ s eq_refl) as E1.
    pose proof (Hp2 _ _ Hr) as E2. rewrite E2, E1. now rewrite app_assoc.
  - exists (Some (Raise e)), l. intros self.
    destruct (Hm self) as [Ho Hp]. unfold bind.
    destruct (m self) as [[[a'|e'] s]|]; simpl in Ho; try discriminate.
    injection Ho as ->. split; [reflexivity|].
    intros r s' [= <- <-]. eapply Hp; reflexivity.
  - exists None, []. intros self.
    destruct (Hm self) as [Ho Hp]. unfold bind.
    destruct (m self) as [[[a'|e'] s]|]; simpl in Ho; try discriminate.
    split; [reflexivity | discriminate].
Qed.

Lemma steady_try_except {A} (body : M A) handler :
  steady body -> (forall e, steady (handler e)) -> steady (try_except body handler).
Proof.
  intros [o [l Hm]] Hh. destruct o as [[a|e]|].
  - exists (Some (Ok a)), l. intros self.
    destruct (Hm self) as [Ho Hp]. unfold try_except.
    destruct (body self) as [[[a'|e'] s]|]; simpl in Ho; try discriminate.
    injection Ho as ->. split; [reflexivity|].
    intros r s' [= <- <-]. eapply Hp; reflexivity.
  - destruct (Hh e) as [o2 [l2 Hk2]]. exists o2, (l ++ l2). intros self.
    destruct (Hm self) as [Ho Hp]. unfold try_except.
    destruct (body self) as [[[a'|e'] s]|]; simpl in Ho; try discriminate.
    injection Ho as ->. destruct (Hk2 s) as [Ho2 Hp2]. split; [assumption|].
    intros r s' Hr. pose proof (Hp _ s eq_refl) as E1.
    pose proof (Hp2 _ _ Hr) as E2. rewrite E2, E1. now rewrite app_assoc.
  - exists None, []. intros self.
    destruct (Hm self) as [Ho Hp]. unfold try_except.
    destruct (body self) as [[[a'|e'] s]|]; simpl in Ho; try discriminate.
    split; [reflexivity | discriminate].
Qed.

Lemma steady_while {S} (body : S -> M (ctl S)) fuel :
  (forall s, steady (body s)) -> forall s, steady (while fuel body s).
Proof.
  intros Hb. induction fuel as [|fuel IH]; intros s; simpl.
  - exists None, []. intros self; split; [reflexivity | discriminate].
  - apply steady_bind; [apply Hb|]. intros [s'|s']; [apply IH | apply steady_ret].
Qed.

Lemma steady_for_each {A} (xs : list A) body :
  (forall x, steady (body x)) -> steady (for_each xs body).
Proof.
  intros Hb. induction xs as [|x xs IH]; simpl; [apply steady_ret|].
  apply steady_bind; [apply Hb | intros _; apply IH].
Qed.

Lemma steady_append p : steady (modify (append_packet p)).
Proof. now apply steady_modify with (l := [p]). Qed.

Lemma steady_set_format_info fi : steady (modify (set_format_info fi)).
Proof.
  apply steady_modify with (l := []). intros self; simpl. now rewrite app_nil_r.
Qed.

Lemma steady_set_parsed_with_dpkt : steady (modify set_parsed_with_dpkt).
Proof.
  apply steady_modify with (l := []). intros self; simpl. now rewrite app_nil_r.
Qed.

#[export] Hint Resolve steady_ret steady_raise steady_lift steady_append
  steady_set_format_info steady_set_parsed_with_dpkt : steady.

Ltac steady_steps :=
  repeat first
    [ solve [auto with steady]
    | apply steady_while; intros
    | apply steady_for_each; intros
    | apply steady_try_except; [|intros]
    | apply steady_bind; [|intros] ].

Lemma steady_drain reader : steady (drain reader).
Proof.
  unfold drain. apply steady_bind.
  - apply steady_for_each. intros [ts buf]. auto with steady.
  - intros _. destruct (rd_raises reader); auto with steady.
Qed.

Lemma steady_drain_pcapng reader : steady (drain_pcapng reader).
Proof.
  unfold drain_pcapng. apply steady_bind.
  - apply steady_for_each. intros [buf ts].
    apply steady_bind; [auto with steady | intros qpacket; auto with steady].
  - intros _. destruct (rd_raises reader); auto with steady.
Qed.

#[export] Hint Resolve steady_drain steady_drain_pcapng : steady.

Lemma steady_classic_attempt o endian format_type :
  steady (classic_attempt o endian format_type).
Proof.
  unfold classic_attempt. steady_steps.
  match goal with h : (Z * Z * Z * Z * Z * Z * Z)%type |- _ =>
    destruct h as [[[[[[? ?] ?] ?] ?] ?] ?] end.
  steady_steps. unfold classic_turn. steady_steps.
  destruct (_ <? _)%nat; steady_steps.
  match goal with h : (Z * Z * Z * Z)%type |- _ =>
    destruct h as [[[? ?] ?] ?] end.
  steady_steps.
Qed.

Lemma steady_dpkt P o : steady (_parse_with_dpkt P o).
Proof.
  unfold _parse_with_dpkt. destruct (negb _); [auto with steady|].
  unfold dpkt_attempt. steady_steps.
Qed.

Lemma steady_pcapng_attempt P o : steady (pcapng_attempt P o).
Proof.
  unfold pcapng_attempt. steady_steps.
  destruct (rd_interfaces _); auto with steady.
Qed.

Lemma steady_scan_turn data s : steady (scan_turn data s).
Proof.
  destruct s as [pos count]. unfold scan_turn.
  destruct (negb _); [auto with steady|].
  destruct (_ <=? _)%nat; [|auto with steady].
  steady_steps. destruct (_ || _); [auto with steady|].
  steady_steps. destruct (_ && _); [|auto with steady].
  unfold extract_packet. steady_steps.
  destruct (_ <=? _); steady_steps.
Qed.

#[export] Hint Resolve steady_scan_turn : steady.

Lemma steady_fallback o : steady (_parse_pcapng_fallback o).
Proof.
  unfold _parse_pcapng_fallback, scan_attempt, scan. steady_steps.
  destruct (_ <? _)%nat; auto with steady.
Qed.

(** What a steady strategy appends to a session is what it yields in a
    fresh one. *)
Lemma steady_frames {A} (m : M A) self r self' :
  steady m -> m self = Some (r, self') ->
  packets self' = packets self ++ frames_of m.
Proof.
  intros [o [l Hm]] Hr. destruct (Hm self) as [Ho Hp].
  rewrite (Hp _ _ Hr). f_equal. unfold frames_of.
  destruct (Hm (new_parser None)) as [Ho' Hp'].
  rewrite Hr in Ho; simpl in Ho.
  destruct (m (new_parser None)) as [[r0 s0]|]; [|subst o; discriminate].
  now rewrite (Hp' _ _ eq_refl).
Qed.

(** ** The claims on the fallback chain *)

(** C1 (amended): when a reader fails and its fallback then succeeds (the
    classic reader and the dpkt reader, the block reader and the scanning
    fallback), the call succeeds and the session holds, after the packets it
    had, the packets the failed attempt had appended followed by the packets
    of the fallback: nothing is discarded. *)
Theorem C1_fallback_appends_to_the_failed_attempt P opens self :
  DPKT_AVAILABLE P = true ->
  (forall endian format_type e self1 self2,
     classic_attempt (opens 0%nat) endian format_type self = Some (Raise e, self1) ->
     _parse_with_dpkt P (opens 1%nat) self1 = Some (Ok tt, self2) ->
     _parse_classic_pcap P opens endian format_type self = Some (Ok tt, self2)
     /\ packets self2
        = packets self
          ++ frames_of (classic_attempt (opens 0%nat) endian format_type)
          ++ frames_of (_parse_with_dpkt P (opens 1%nat)))
  /\ (forall e self1 self2,
        pcapng_attempt P (opens 0%nat) self = Some (Raise e, self1) ->
        _parse_pcapng_fallback (opens 1%nat) self1 = Some (Ok tt, self2) ->
        _parse_pcapng P opens self = Some (Ok tt, self2)
        /\ packets self2
           = packets self
             ++ frames_of (pcapng_attempt P (opens 0%nat))
             ++ frames_of (_parse_pcapng_fallback (opens 1%nat))).
Proof.
  intros Hd; split.
  - intros endian format_type e self1 self2 H1 H2. split.
    + unfold _parse_classic_pcap, try_except. now rewrite H1, Hd.
    + rewrite (steady_frames _ _ _ _ (steady_dpkt P _) H2).
      rewrite (steady_frames _ _ _ _ (steady_classic_attempt _ _ _) H1).
      now rewrite app_assoc.
  - intros e self1 self2 H1 H2. split.
    + unfold _parse_pcapng, try_except. rewrite Hd; cbn [negb]. now rewrite H1.
    + rewrite (steady_frames _ _ _ _ (steady_fallback _) H2).
      rewrite (steady_frames _ _ _ _ (steady_pcapng_attempt P _) H1).
      now rewrite app_assoc.
Qed.

(** The classic reader appends record 1 and fails on the header of the
    second record; dpkt then reads both records. *)
Lemma C1_witness :
  _parse_classic_pcap dpkt_reads_records
    (later (fs_open transient_fs "t.pcap"%string))
    (Some little) (Some classic) (new_parser None)
  = Some (Ok tt,
          set_parsed_with_dpkt
            (add_packets
               [packet_of false record1;
                packet_of false record1; packet_of false record0]
               (set_format_info
                  (classic_info (Some little) (Some classic) le_global_header)
                  (new_parser None))))
  /\ packets
       (set_parsed_with_dpkt
          (add_packets
             [packet_of false record1;
              packet_of false record1; packet_of false record0]
             (set_format_info
                (classic_info (Some little) (Some classic) le_global_header)
                (new_parser None))))
     = packets (new_parser None)
       ++ frames_of (classic_attempt
                       (later (fs_open transient_fs "t.pcap"%string) 0%nat)
                       (Some little) (Some classic))
       ++ frames_of (_parse_with_dpkt dpkt_reads_records
                       (later (fs_open transient_fs "t.pcap"%string) 1%nat)).
Proof.
  eapply (proj1 (C1_fallback_appends_to_the_failed_attempt dpkt_reads_records
                   (later (fs_open transient_fs "t.pcap"%string))
                   (new_parser None) eq_refl));
    vm_compute; reflexivity.
Defined.

(** C1 as stated fails: on [transient_classic], a classic capture of two
    records whose second record header cannot be read at the first
    attempt, the classic reader appends the packet of record 1 and fails,
    the dpkt fallback runs and succeeds with the two packets of the file,
    and the packets returned are the packet of the failed attempt followed
    by the two of the fallback, not the packets of the fallback alone. *)
Lemma C1_failed_attempt_packets_are_kept :
  exists self1 self2,
    classic_attempt (Ok transient_classic) (Some little) (Some classic)
      (new_parser (Some "t.pcap"%string))
    = Some (Raise (OSError 5), self1)
    /\ packets self1 = [packet_of false record1]
    /\ parse_file dpkt_reads_records transient_fs
         (Some "t.pcap"%string) (new_parser None)
       = Some (Ok tt, self2)
    /\ frames_of (_parse_with_dpkt dpkt_reads_records
                    (Ok (healthy (content transient_classic))))
       = [packet_of false record1; packet_of false record0]
    /\ packets self2
       = [packet_of false record1;
          packet_of false record1; packet_of false record0]
    /\ packets self2
       <> frames_of (_parse_with_dpkt dpkt_reads_records
                       (Ok (healthy (content transient_classic)))).
Proof.
  eexists; eexists. split; [vm_compute; reflexivity|].
  split; [vm_compute; reflexivity|].
  split; [vm_compute; reflexivity|].
  split; [vm_compute; reflexivity|].
  split; [vm_compute; reflexivity|].
  vm_compute. discriminate.
Qed.

Lemma pcapng_attempt_total P o self :
  exists r self', pcapng_attempt P o self = Some (r, self').
Proof.
  unfold pcapng_attempt. unfold_monad. destruct o as [f|e]; [|eauto].
  destruct (pcapng_Reader P f) as [reader|e]; [|eauto].
  destruct (rd_interfaces reader); rewrite drain_pcapng_spec; eauto.
Qed.

(** C6 (amended): for an input classified as block-structured, when dpkt is
    available and the block reader raises, whatever it raises,
    [_parse_pcapng] goes on with the scanning fallback from the session as
    the failed attempt left it, and its outcome is that of the fallback;
    when dpkt is missing, [_parse_pcapng] raises [ValueError] at once and
    the scanning fallback is not run. *)
Theorem C6_scanning_runs_when_the_reader_raises P opens self :
  (DPKT_AVAILABLE P = false
   /\ _parse_pcapng P opens self = Some (Raise (ValueError RequiresDpkt), self))
  \/ (DPKT_AVAILABLE P = true
      /\ ((exists self1,
             pcapng_attempt P (opens 0%nat) self = Some (Ok tt, self1)
             /\ _parse_pcapng P opens self = Some (Ok tt, self1))
          \/ (exists e self1,
                pcapng_attempt P (opens 0%nat) self = Some (Raise e, self1)
                /\ _parse_pcapng P opens self
                   = _parse_pcapng_fallback (opens 1%nat) self1))).
Proof.
  unfold _parse_pcapng, try_except.
  destruct (DPKT_AVAILABLE P); [right | left; split; reflexivity].
  split; [reflexivity|]. cbn [negb].
  destruct (pcapng_attempt_total P (opens 0%nat) self) as [[[]|e] [self1 H]];
    rewrite H; [left | right]; eauto.
Qed.

(** C6 as stated fails: without dpkt, parsing [sample_pcapng] raises and
    leaves the session without packets, although the scanning fallback
    would have recovered a packet from the same file. *)
Lemma C6_no_dpkt_no_scanning :
  parse_file no_dpkt (one_file sample_pcapng) (Some "a.pcapng"%string)
    (new_parser None)
  = Some (Raise (ValueError RequiresDpkt), new_parser (Some "a.pcapng"%string))
  /\ exists self',
       _parse_pcapng_fallback (Ok (healthy sample_pcapng))
         (new_parser (Some "a.pcapng"%string))
       = Some (Ok tt, self')
       /\ packets self' = [epb_packet sample_pcapng 28].
Proof.
  split; [vm_compute; reflexivity|].
  eexists; split; vm_compute; reflexivity.
Qed.

(** ** The claims on empty input and on I/O errors *)

Lemma read_start_empty f n : content f = [] -> read f 0 n = Ok [].
Proof.
  intros H. unfold read. rewrite H, skipn_nil, firstn_nil.
  destruct (fault f) as [[q errno]|]; reflexivity.
Qed.

(** C8 (amended): on an empty input format detection does not raise and
    answers that the format is not recognized; [parse_file] then adds no
    packet of its own: without dpkt it raises [ValueError] (unknown file
    format), with dpkt its outcome is that of [_parse_with_dpkt]; and
    [load_pcap] raises [ValueError] for a file of size zero before any
    parsing. *)
Theorem C8_empty_input P fs path f self sp :
  truthy (Some path) = true ->
  fs_exists fs path = true -> fs_getsize fs path = 0%nat ->
  fs_open fs path 0%nat = Ok f -> content f = [] ->
  detect_format (Ok f) = (None, None)
  /\ parse_file P fs (Some path) self
     = (if DPKT_AVAILABLE P
        then _parse_with_dpkt P (fs_open fs path 1%nat)
               (set_filename (Some path) self)
        else Some (Raise (ValueError UnknownFileFormat),
                   set_filename (Some path) self))
  /\ load_pcap P fs path sp
     = Some (Raise (ValueError FileIsEmpty),
             {| sp_filename := Some path; parser := parser sp |}).
Proof.
  intros Ht He Hs Ho Hc.
  assert (Hd : detect_format (Ok f) = (None, None)).
  { unfold detect_format, detect_format_body. now rewrite read_start_empty. }
  split; [assumption | split].
  - rewrite parse_file_named by assumption. cbv zeta. rewrite Ho, Hd.
    destruct (DPKT_AVAILABLE P); reflexivity.
  - unfold load_pcap. now rewrite He, Hs.
Qed.

(** The empty file on a host without dpkt. *)
Lemma C8_witness :
  detect_format (Ok (healthy [])) = (None, None)
  /\ parse_file no_dpkt (one_file []) (Some "empty.pcap"%string) (new_parser None)
     = Some (Raise (ValueError UnknownFileFormat),
             set_filename (Some "empty.pcap"%string) (new_parser None))
  /\ load_pcap no_dpkt (one_file []) "empty.pcap"%string (new_SillyPCAP None)
     = Some (Raise (ValueError FileIsEmpty),
             {| sp_filename := Some "empty.pcap"%string;
                parser := parser (new_SillyPCAP None) |}).
Proof.
  apply (C8_empty_input no_dpkt (one_file []) "empty.pcap"%string (healthy [])
           (new_parser None) (new_SillyPCAP None));
    reflexivity.
Defined.

(** C8 as stated fails: parsing the empty file raises, from [parse_file] on
    a host without dpkt and from [load_pcap] on any host. *)
Lemma C8_empty_input_raises :
  parse_file no_dpkt (one_file []) (Some "empty.pcap"%string) (new_parser None)
  = Some (Raise (ValueError UnknownFileFormat),
          new_parser (Some "empty.pcap"%string))
  /\ load_pcap dpkt_cut_short (one_file []) "empty.pcap"%string
       (new_SillyPCAP None)
     = Some (Raise (ValueError FileIsEmpty),
             {| sp_filename := Some "empty.pcap"%string;
                parser := new_parser None |}).
Proof. split; vm_compute; reflexivity. Qed.

(** C9 (amended): an I/O error raised while the classic reader opens or
    reads the file is surfaced unchanged when dpkt is missing (with dpkt the
    dpkt fallback runs instead), and one raised while the dpkt reader opens
    or reads it is surfaced unchanged; an I/O error during format detection
    is not surfaced but answered with "not recognized", so that a file that
    cannot be opened gives [ValueError] (unknown file format) without dpkt;
    and the scanning fallback wraps it in a [ValueError]. *)
Theorem C9_io_errors P fs path errno self :
  truthy (Some path) = true ->
  (forall o e, detect_format_body o = Raise e -> detect_format o = (None, None))
  /\ ((forall k, fs_open fs path k = Raise (OSError errno)) ->
      parse_file P fs (Some path) self
      = Some (Raise (if DPKT_AVAILABLE P then OSError errno
                     else ValueError UnknownFileFormat),
              set_filename (Some path) self))
  /\ (forall opens endian format_type self1,
        classic_attempt (opens 0%nat) endian format_type self
        = Some (Raise (OSError errno), self1) ->
        _parse_classic_pcap P opens endian format_type self
        = if DPKT_AVAILABLE P then _parse_with_dpkt P (opens 1%nat) self1
          else Some (Raise (OSError errno), self1))
  /\ (forall o self1,
        DPKT_AVAILABLE P = true ->
        dpkt_attempt P o self = Some (Raise (OSError errno), self1) ->
        _parse_with_dpkt P o self = Some (Raise (OSError errno), self1))
  /\ (forall o self1,
        scan_attempt o self = Some (Raise (OSError errno), self1) ->
        _parse_pcapng_fallback o self
        = Some (Raise (ValueError (CouldNotParse (OSError errno))), self1)).
Proof.
  intros Ht. split; [|split; [|split; [|split]]].
  - intros o e H. unfold detect_format. now rewrite H.
  - intros Hk. rewrite parse_file_named by assumption. cbv zeta.
    rewrite !Hk. cbn. unfold _parse_with_dpkt.
    destruct (DPKT_AVAILABLE P); reflexivity.
  - intros opens endian format_type self1 H.
    unfold _parse_classic_pcap, try_except. rewrite H.
    destruct (DPKT_AVAILABLE P); reflexivity.
  - intros o self1 Hd H. unfold _parse_with_dpkt, try_except.
    rewrite Hd; cbn [negb]. now rewrite H.
  - intros o self1 H. unfold _parse_pcapng_fallback, try_except. now rewrite H.
Qed.

(** A file that cannot be opened, with dpkt, and a read error in the middle
    of a classic file, without. *)
Lemma C9_witness :
  parse_file dpkt_cut_short (unreadable 5) (Some "gone.pcap"%string)
    (new_parser None)
  = Some (Raise (OSError 5), new_parser (Some "gone.pcap"%string))
  /\ _parse_classic_pcap no_dpkt (always faulty_classic)
       (Some little) (Some classic) (new_parser None)
     = Some (Raise (OSError 5),
             add_packets [packet_of false record1]
               (set_format_info
                  (classic_info (Some little) (Some classic) le_global_header)
                  (new_parser None))).
Proof.
  split.
  - apply (proj1 (proj2 (C9_io_errors dpkt_cut_short (unreadable 5)
                           "gone.pcap"%string 5 (new_parser None) eq_refl))).
    reflexivity.
  - apply (proj1 (proj2 (proj2 (C9_io_errors no_dpkt (unreadable 5)
                                  "gone.pcap"%string 5 (new_parser None) eq_refl)))
             (always faulty_classic) (Some little) (Some classic)).
    vm_compute; reflexivity.
Defined.

(** A read error in the middle of a classic file, on a host without dpkt:
    the error comes out as it was raised and the packet read before it
    stays in the session. *)
Example classic_read_error_surfaces :
  parse_file no_dpkt
    {| fs_exists := fun _ => true; fs_getsize := fun _ => 88%nat;
       fs_open := fun _ => always faulty_classic |}
    (Some "bad-disk.pcap"%string) (new_parser None)
  = Some (Raise (OSError 5),
          add_packets [packet_of false record1]
            (set_format_info
               (classic_info (Some little) (Some classic) le_global_header)
               (new_parser (Some "bad-disk.pcap"%string)))).
Proof. vm_compute. reflexivity. Qed.

(** C9 as stated fails: a file that cannot be opened, on a host without
    dpkt, is reported as an unknown file format, and the scanning fallback
    reports the I/O error as a [ValueError]. *)
Lemma C9_io_error_is_converted :
  detect_format (Raise (OSError 5)) = (None, None)
  /\ parse_file no_dpkt (unreadable 5) (Some "gone.pcap"%string) (new_parser None)
     = Some (Raise (ValueError UnknownFileFormat),
             new_parser (Some "gone.pcap"%string))
  /\ _parse_pcapng_fallback (Raise (OSError 5)) (new_parser None)
     = Some (Raise (ValueError (CouldNotParse (OSError 5))), new_parser None).
Proof. repeat split. Qed.

(** ** The claim on byte order *)

Lemma Z_of_byte_bound b : 0 <= Z_of_byte b <= 255.
Proof.
  unfold Z_of_byte. pose proof (Byte.to_N_bounded b). lia.
Qed.

(** Whatever the four bytes, the table loop never answers [big]: the first
    entry already takes the big-endian reading of the classic magic, and
    the third that of the nanosecond magic. *)
Lemma match_magic_never_big b0 b1 b2 b3 format_type :
  match_magic (uint_le [b0; b1; b2; b3]) (uint_be [b0; b1; b2; b3])
    PCAP_MAGIC_NUMBERS
  <> Some (big, format_type).
Proof.
  unfold uint_be. cbn [rev app].
  change (uint_le [b0; b1; b2; b3])
    with (Z_of_byte b0 + 256 * (Z_of_byte b1 + 256 * (Z_of_byte b2
          + 256 * (Z_of_byte b3 + 256 * 0)))).
  change (uint_le [b3; b2; b1; b0])
    with (Z_of_byte b3 + 256 * (Z_of_byte b2 + 256 * (Z_of_byte b1
          + 256 * (Z_of_byte b0 + 256 * 0)))).
  pose proof (Z_of_byte_bound b0). pose proof (Z_of_byte_bound b1).
  pose proof (Z_of_byte_bound b2). pose proof (Z_of_byte_bound b3).
  unfold PCAP_MAGIC_NUMBERS, match_magic.
  repeat match goal with
         | |- context [?x =? ?y] => destruct (Z.eqb_spec x y)
         end; try discriminate; lia.
Qed.

(** C2 fails on the code: [detect_format] never answers [big], and it
    answers [little] for the magic of a big-endian file. The two files
    below hold the same record, one in each byte order; the little-endian
    one gives a packet at second 1, the big-endian one, read as
    little-endian, a packet at second 16777216. *)
Theorem C2_big_endian_file_is_read_as_little_endian :
  (forall o, fst (detect_format o) <> Some big)
  /\ holds_records true le_record0 [record0]
  /\ holds_records false be_record0 [record0]
  /\ detect_format (Ok (healthy (be_global_header ++ be_record0)))
     = (Some little, Some classic)
  /\ (exists self',
        parse_file no_dpkt (one_file (le_global_header ++ le_record0))
          (Some "le.pcap"%string) (new_parser None) = Some (Ok tt, self')
        /\ map timestamp (packets self') = [1%float])
  /\ (exists self',
        parse_file no_dpkt (one_file (be_global_header ++ be_record0))
          (Some "be.pcap"%string) (new_parser None) = Some (Ok tt, self')
        /\ map timestamp (packets self') = [16777216%float]).
Proof.
  split; [|split; [|split; [|split; [|split]]]].
  - intros o. unfold detect_format, detect_format_body.
    destruct o as [f|e]; [|discriminate].
    destruct (read f 0 4) as [magic_bytes|e]; [|discriminate].
    destruct (length magic_bytes <? 4)%nat eqn:Hlen; [discriminate|].
    unfold unpack_I.
    destruct (Nat.eqb_spec (length magic_bytes) 4) as [H4|H4]; [|discriminate].
    destruct magic_bytes as [|b0 [|b1 [|b2 [|b3 [|b4 rest]]]]]; try discriminate.
    unfold field.
    pose proof (match_magic_never_big b0 b1 b2 b3) as Hnb.
    destruct (match_magic _ _ PCAP_MAGIC_NUMBERS) as [[endian format_type]|].
    + cbn [fst]. intros [= ->]. now apply (Hnb format_type).
    + destruct (list_eq_dec _ _ _); discriminate.
  - exact (holds_cons true le_record0 record0 [] [] eq_refl eq_refl (holds_nil true)).
  - exact (holds_cons false be_record0 record0 [] [] eq_refl eq_refl (holds_nil false)).
  - vm_compute. reflexivity.
  - eexists; split; vm_compute; reflexivity.
  - eexists; split; vm_compute; reflexivity.
Qed.

(** ** The fuel is always enough *)

Lemma total_ret {A} (a : A) : total (ret a).
Proof. intros self; unfold ret; eauto. Qed.

Lemma total_raise {A} e : total (@raise A e).
Proof. intros self; unfold raise; eauto. Qed.

Lemma total_lift {A} (r : result A) : total (lift r).
Proof. destruct r; [apply total_ret | apply total_raise]. Qed.

Lemma total_modify g : total (modify g).
Proof. intros self; unfold modify; eauto. Qed.

Lemma total_get {A} (g : CognitivePCAPParser -> A) : total (get g).
Proof. intros self; unfold get; eauto. Qed.

Lemma total_bind {A B} (m : M A) (k : A -> M B) :
  total m -> (forall a, total (k a)) -> total (bind m k).
Proof.
  intros Hm Hk self. unfold bind.
  destruct (Hm self) as [[a|e] [self' ->]]; [apply Hk | eauto].
Qed.

Lemma total_try_except {A} (body : M A) handler :
  total body -> (forall e, total (handler e)) -> total (try_except body handler).
Proof.
  intros Hm Hh self. unfold try_except.
  destruct (Hm self) as [[a|e] [self' ->]]; [eauto | apply Hh].
Qed.

Lemma total_for_each {A} (xs : list A) body :
  (forall x, total (body x)) -> total (for_each xs body).
Proof.
  intros Hb. induction xs as [|x xs IH]; simpl; [apply total_ret|].
  apply total_bind; [apply Hb | intros _; apply IH].
Qed.

Create HintDb total.

#[export] Hint Resolve total_ret total_raise total_lift total_modify total_get
  : total.

Ltac total_steps :=
  repeat first
    [ solve [auto with total]
    | apply total_for_each; intros
    | apply total_try_except; [|intros]
    | apply total_bind; [|intros] ].

Lemma total_drain reader : total (drain reader).
Proof.
  intros self. rewrite drain_spec. eauto.
Qed.

#[export] Hint Resolve total_drain : total.

Lemma read_Ok f pos n chunk :
  read f pos n = Ok chunk -> chunk = firstn n (skipn pos (content f)).
Proof.
  unfold read. destruct (fault f) as [[q errno]|].
  - destruct (_ <? _)%nat; [discriminate | now intros [= <-]].
  - now intros [= <-].
Qed.

Lemma total_classic_turn lt nano f pos : total (classic_turn lt nano f pos).
Proof.
  unfold classic_turn. total_steps.
  destruct (_ <? _)%nat; total_steps.
  match goal with h : (Z * Z * Z * Z)%type |- _ =>
    destruct h as [[[? ?] ?] ?] end.
  total_steps.
Qed.

(** A turn of the classic loop that goes round again has read a whole
    record header. *)
Lemma classic_turn_progress lt nano f pos self pos' self' :
  classic_turn lt nano f pos self = Some (Ok (Continue pos'), self') ->
  (pos + 16 <= length (content f) /\ pos + 16 <= pos')%nat.
Proof.
  unfold classic_turn. unfold_monad.
  destruct (read f pos 16) as [hdr|e] eqn:R; [|discriminate].
  destruct (Nat.ltb_spec (length hdr) 16) as [Hl|Hl]; [discriminate|].
  destruct (unpack_IIII lt hdr) as [[[[sec frac] incl] orig]|e]; [|discriminate].
  destruct (read f (pos + length hdr) (Z.to_nat incl)) as [data|e];
    [|discriminate].
  intros [= <- _].
  apply read_Ok in R. subst hdr.
  rewrite length_firstn, length_skipn in *. lia.
Qed.

Lemma classic_loop_ends lt nano f fuel :
  forall pos self,
    (length (content f) - pos < fuel)%nat ->
    exists r self',
      while fuel (classic_turn lt nano f) pos self = Some (r, self').
Proof.
  induction fuel as [|fuel IH]; intros pos self Hf; [lia|].
  simpl. unfold bind.
  destruct (total_classic_turn lt nano f pos self) as [[[pos'|pos']|e] [self' H]];
    rewrite H; [|unfold ret; eauto | eauto].
  apply classic_turn_progress in H. apply IH. lia.
Qed.

Lemma total_classic_attempt o endian format_type :
  total (classic_attempt o endian format_type).
Proof.
  unfold classic_attempt. total_steps.
  match goal with h : (Z * Z * Z * Z * Z * Z * Z)%type |- _ =>
    destruct h as [[[[[[? ?] ?] ?] ?] ?] ?] end.
  apply total_bind; [auto with total | intros _].
  apply total_bind; [|auto with total].
  intros self. apply classic_loop_ends. lia.
Qed.

Lemma total_dpkt P o : total (_parse_with_dpkt P o).
Proof.
  unfold _parse_with_dpkt. destruct (negb _); [auto with total|].
  unfold dpkt_attempt. total_steps.
Qed.

Lemma total_fallback o : total (_parse_pcapng_fallback o).
Proof.
  unfold _parse_pcapng_fallback, scan_attempt.
  apply total_try_except; [|auto with total].
  apply total_bind; [auto with total | intros f].
  apply total_bind; [auto with total | intros data].
  apply total_bind.
  - intros self. unfold scan.
    destruct (scan_loop_ends data (S (length data)) 0%nat 0%nat self ltac:(lia))
      as [pos' [l Hl]].
    eauto.
  - intros s. destruct (_ <? _)%nat; auto with total.
Qed.

Lemma total_pcapng_attempt P o : total (pcapng_attempt P o).
Proof. intros self. apply pcapng_attempt_total. Qed.

#[export] Hint Resolve total_classic_attempt total_dpkt total_fallback
  total_pcapng_attempt : total.

Lemma total_parse_classic P opens endian format_type :
  total (_parse_classic_pcap P opens endian format_type).
Proof.
  unfold _parse_classic_pcap. apply total_try_except; [auto with total|].
  intros e. destruct (DPKT_AVAILABLE P); auto with total.
Qed.

Lemma total_parse_pcapng P opens : total (_parse_pcapng P opens).
Proof.
  unfold _parse_pcapng. destruct (negb _); [auto with total|].
  apply total_try_except; auto with total.
Qed.

#[export] Hint Resolve total_parse_classic total_parse_pcapng : total.

(** [parse_file] and [load_pcap] always come to an outcome: the loops never
    use up the turns they are given. *)
Lemma parse_file_total P fs name : total (parse_file P fs name).
Proof.
  unfold parse_file.
  apply total_bind; [destruct (truthy name); auto with total | intros _].
  apply total_bind; [auto with total | intros [path|]]; [|auto with total].
  destruct (negb _); [auto with total|]. cbv zeta.
  destruct (detect_format _) as [endian [[| | |]|]]; auto with total;
    destruct (DPKT_AVAILABLE P); auto with total.
Qed.

Lemma load_pcap_total P fs name self :
  exists r self', load_pcap P fs name self = Some (r, self').
Proof.
  unfold load_pcap. destruct (negb _); [eauto|].
  destruct (_ =? _)%nat; [eauto|].
  destruct (parse_file_total P fs (Some name) (parser self)) as [r [p H]].
  cbn [parser]. rewrite H. eauto.
Qed.

(** * Further properties of the code *)

(** ** Format detection *)

Lemma read_first_four f :
  fault f = None -> read f 0 4 = Ok (firstn 4 (content f)).
Proof. intros H. now rewrite read_healthy. Qed.

(** [detect_format] looks at the first four bytes of the file and at nothing
    else: two files that open and read well and agree on their first four
    bytes get the same answer. *)
Lemma detect_format_first_four_bytes f g :
  fault f = None -> fault g = None ->
  firstn 4 (content f) = firstn 4 (content g) ->
  detect_format (Ok f) = detect_format (Ok g).
Proof.
  intros Hf Hg H. unfold detect_format, detect_format_body.
  now rewrite !read_first_four, H by assumption.
Qed.

(** A file with fewer than four bytes, whether its reads fail or not, and a
    file that cannot be opened are answered with [(None, None)]. *)
Theorem detect_format_short_file o :
  (forall f, o = Ok f -> (length (content f) < 4)%nat) ->
  detect_format o = (None, None).
Proof.
  intros H. unfold detect_format, detect_format_body.
  destruct o as [f|e]; [|reflexivity].
  specialize (H f eq_refl).
  destruct (read f 0 4) as [magic_bytes|e] eqn:R; [|reflexivity].
  apply read_Ok in R. subst magic_bytes.
  simpl skipn. rewrite length_firstn.
  destruct (Nat.ltb_spec (Nat.min 4 (length (content f))) 4); [reflexivity | lia].
Qed.

(** Three bytes of a classic magic, with a read fault at the second. *)
Lemma detect_format_short_file_witness :
  detect_format
    (Ok {| content := [Byte.xd4; Byte.xc3; Byte.xb2]; fault := Some (1%nat, 5) |})
  = (None, None).
Proof.
  apply detect_format_short_file. intros f [= <-]. simpl. lia.
Defined.

(** The table of answers, whatever follows the first four bytes: both
    spellings of the classic magic and of the nanosecond magic are answered
    with their format and [little]; the pcapng marker with [pcapng]; and
    four bytes that begin with ff ff with [wireless_cap] of unknown byte
    order. *)
Theorem detect_format_table (b2 b3 : byte) (rest : list byte) :
  detect_format (Ok (healthy ([Byte.xd4; Byte.xc3; Byte.xb2; Byte.xa1] ++ rest)))
  = (Some little, Some classic)
  /\ detect_format (Ok (healthy ([Byte.xa1; Byte.xb2; Byte.xc3; Byte.xd4] ++ rest)))
     = (Some little, Some classic)
  /\ detect_format (Ok (healthy ([Byte.x4d; Byte.x3c; Byte.xb2; Byte.xa1] ++ rest)))
     = (Some little, Some nanosecond)
  /\ detect_format (Ok (healthy ([Byte.xa1; Byte.xb2; Byte.x3c; Byte.x4d] ++ rest)))
     = (Some little, Some nanosecond)
  /\ detect_format (Ok (healthy ([Byte.x0a; Byte.x0d; Byte.x0d; Byte.x0a] ++ rest)))
     = (Some little, Some pcapng)
  /\ detect_format (Ok (healthy ([Byte.xff; Byte.xff; b2; b3] ++ rest)))
     = (Some unknown, Some wireless_cap).
Proof.
  repeat split; try reflexivity.
  unfold detect_format, detect_format_body.
  rewrite read_first_four by reflexivity.
  cbn [healthy content app firstn length Nat.ltb Nat.leb].
  unfold unpack_I. cbn [length Nat.eqb field].
  match goal with
  | |- context [match_magic ?le ?be ?table] =>
      assert (Hm : match_magic le be table = None)
  end.
  { unfold uint_be. cbn [rev app].
    change (uint_le [Byte.xff; Byte.xff; b2; b3])
      with (255 + 256 * (255 + 256 * (Z_of_byte b2
            + 256 * (Z_of_byte b3 + 256 * 0)))).
    change (uint_le [b3; b2; Byte.xff; Byte.xff])
      with (Z_of_byte b3 + 256 * (Z_of_byte b2 + 256 * (255
            + 256 * (255 + 256 * 0)))).
    pose proof (Z_of_byte_bound b2). pose proof (Z_of_byte_bound b3).
    unfold PCAP_MAGIC_NUMBERS, match_magic.
    repeat match goal with
           | |- context [?x =? ?y] => destruct (Z.eqb_spec x y)
           end; try reflexivity; lia. }
  rewrite Hm. reflexivity.
Qed.

(** ** The classic reader on arbitrary bytes *)

Lemma field_nonneg lt bs : 0 <= field lt bs.
Proof. destruct lt; apply uint_le_nonneg. Qed.

Lemma slice_of_chunk {A} (data : list A) off n a b :
  (b <= n)%nat -> (off + n <= length data)%nat ->
  slice a b (firstn n (skipn off data)) = slice (off + a) (off + b) data.
Proof.
  intros Hb Hn. unfold slice.
  rewrite skipn_firstn_comm, firstn_firstn, skipn_skipn.
  replace (Nat.min (b - a) (n - a)) with (b - a)%nat by lia.
  replace (off + b - (off + a))%nat with (b - a)%nat by lia.
  now rewrite (Nat.add_comm a off).
Qed.

Lemma pad_packet_length got incl_len :
  Z.of_nat (length got) <= incl_len ->
  Z.of_nat (length (pad_packet got incl_len)) = incl_len.
Proof.
  intros H. unfold pad_packet.
  destruct (Z.ltb_spec (Z.of_nat (length got)) incl_len); [|lia].
  rewrite length_app, repeat_length. lia.
Qed.

(** The payload of a packet of the classic reader has the declared
    length. *)
Lemma record_packet_length lt nano data off :
  Z.of_nat (length (raw_data (record_packet lt nano data off)))
  = field lt (slice (off + 8) (off + 12) data).
Proof.
  unfold record_packet; cbn [raw_data new_packet].
  apply pad_packet_length.
  pose proof (field_nonneg lt (slice (off + 8) (off + 12) data)).
  unfold slice in *. rewrite length_firstn. lia.
Qed.

Section ClassicAnyBytes.

Variables (lt nano : bool) (f : File).
Hypothesis f_healthy : fault f = None.

(** A turn on a healthy file, whatever its bytes. *)
Lemma classic_turn_any pos self :
  classic_turn lt nano f pos self
  = if (length (content f) - pos <? 16)%nat
    then Some (Ok (Break pos), self)
    else Some (Ok (Continue
                     (pos + 16
                      + length (slice (pos + 16)
                                  (pos + 16
                                   + Z.to_nat (field lt (slice (pos + 8) (pos + 12)
                                                           (content f))))
                                  (content f)))%nat),
               add_packets [record_packet lt nano (content f) pos] self).
Proof.
  unfold classic_turn. unfold_monad.
  rewrite read_healthy by assumption.
  rewrite length_firstn, length_skipn.
  destruct (Nat.ltb_spec (length (content f) - pos) 16) as [Hs|Hs].
  - destruct (Nat.ltb_spec (Nat.min 16 (length (content f) - pos)) 16);
      [reflexivity | lia].
  - destruct (Nat.ltb_spec (Nat.min 16 (length (content f) - pos)) 16); [lia|].
    unfold unpack_IIII. rewrite length_firstn, length_skipn.
    replace (Nat.min 16 (length (content f) - pos)) with 16%nat by lia.
    cbn [Nat.eqb]. rewrite !slice_of_chunk by lia.
    rewrite read_healthy by assumption.
    unfold record_packet, slice.
    replace (pos + 16 + Z.to_nat (field lt (firstn (pos + 12 - (pos + 8))
                                              (skipn (pos + 8) (content f))))
             - (pos + 16))%nat
      with (Z.to_nat (field lt (firstn (pos + 12 - (pos + 8))
                                  (skipn (pos + 8) (content f))))) by lia.
    rewrite !Nat.add_0_r. reflexivity.
Qed.

(** The loop on a healthy file never raises; it makes at most one packet
    for every 16 bytes that are left, each from a record header in the
    file. *)
Lemma classic_loop_any fuel :
  forall pos self,
    (length (content f) - pos < fuel)%nat ->
    exists pos' l,
      while fuel (classic_turn lt nano f) pos self
      = Some (Ok pos', add_packets l self)
      /\ (16 * length l <= length (content f) - pos)%nat
      /\ Forall (fun p => exists off,
                     (pos <= off /\ off + 16 <= length (content f))%nat
                     /\ p = record_packet lt nano (content f) off) l.
Proof.
  induction fuel as [|fuel IH]; intros pos self Hf; [lia|].
  destruct (Nat.ltb_spec (length (content f) - pos) 16) as [Hs|Hs].
  - exists pos, []. rewrite add_packets_nil. split; [|split].
    + apply while_break. rewrite classic_turn_any.
      destruct (Nat.ltb_spec (length (content f) - pos) 16); [reflexivity | lia].
    + simpl; lia.
    + constructor.
  - set (pos1 := (pos + 16
                  + length (slice (pos + 16)
                              (pos + 16
                               + Z.to_nat (field lt (slice (pos + 8) (pos + 12)
                                                       (content f))))
                              (content f)))%nat).
    assert (Hp1 : (pos1 <= length (content f))%nat).
    { unfold pos1, slice. rewrite length_firstn, length_skipn. lia. }
    destruct (IH pos1 (add_packets [record_packet lt nano (content f) pos] self)
                ltac:(unfold pos1; lia)) as [pos' [l [Hrun [Hn Hall]]]].
    exists pos', (record_packet lt nano (content f) pos :: l).
    split; [|split].
    + rewrite (while_continue _ _ _ _ pos1
                 (add_packets [record_packet lt nano (content f) pos] self)).
      * rewrite Hrun, add_packets_app. reflexivity.
      * rewrite classic_turn_any.
        destruct (Nat.ltb_spec (length (content f) - pos) 16); [lia | reflexivity].
    + cbn [length]. unfold pos1 in Hn. lia.
    + constructor.
      * exists pos. split; [lia | reflexivity].
      * eapply Forall_impl; [|exact Hall].
        intros p [off [Hoff Hp]]. exists off. split; [unfold pos1 in Hoff; lia|].
        assumption.
Qed.

End ClassicAnyBytes.

(** The classic reader on any bytes that read well. *)
Lemma classic_reader_on_any_bytes P opens endian format_type f self :
  opens 0%nat = Ok f -> fault f = None ->
  (24 <= length (content f))%nat ->
  exists l,
    _parse_classic_pcap P opens endian format_type self
    = Some (Ok tt,
            add_packets l
              (set_format_info
                 (classic_info endian format_type (firstn 24 (content f))) self))
    /\ (16 * length l <= length (content f) - 24)%nat
    /\ Forall (fun p =>
                 exists off,
                   (24 <= off /\ off + 16 <= length (content f))%nat
                   /\ p = record_packet (is_little endian)
                            (is_nanosecond format_type) (content f) off
                   /\ Z.of_nat (length (raw_data p))
                      = field (is_little endian)
                          (slice (off + 8) (off + 12) (content f))) l.
Proof.
  intros Ho Hf Hlen.
  destruct (classic_loop_any (is_little endian) (is_nanosecond format_type) f Hf
              (S (length (content f))) 24%nat
              (set_format_info
                 (classic_info endian format_type (firstn 24 (content f))) self)
              ltac:(lia)) as [pos' [l [Hrun [Hn Hall]]]].
  exists l. split; [|split].
  - apply _parse_classic_pcap_ok. rewrite Ho. unfold classic_attempt.
    unfold bind at 1. unfold lift at 1, ret at 1.
    unfold bind at 1. rewrite read_healthy by assumption. simpl skipn.
    unfold lift at 1, ret at 1.
    assert (E : length (firstn 24 (content f)) = 24%nat)
      by (rewrite length_firstn; lia).
    unfold bind at 1. unfold unpack_IHHIIII. rewrite E. cbn [Nat.eqb].
    unfold lift at 1, ret at 1. cbv beta iota.
    unfold bind at 1. unfold modify at 1.
    unfold bind at 1.
    change (set_format_info _ self)
      with (set_format_info
              (classic_info endian format_type (firstn 24 (content f))) self).
    rewrite Hrun. reflexivity.
  - assumption.
  - eapply Forall_impl; [|exact Hall].
    intros p [off [Hoff Hp]]. exists off. split; [assumption|].
    split; [assumption|]. subst p. apply record_packet_length.
Qed.

(** On a file that opens and reads well and has at least its 24 header
    bytes, [_parse_classic_pcap] never raises, whatever the bytes: it
    appends at most one packet for every 16 bytes after the header, and
    each packet is made of a record header in the file, with a payload of
    exactly the length that header declares. *)
Theorem classic_reader_takes_any_bytes P opens endian format_type f self :
  opens 0%nat = Ok f -> fault f = None ->
  (24 <= length (content f))%nat ->
  exists l,
    _parse_classic_pcap P opens endian format_type self
    = Some (Ok tt,
            add_packets l
              (set_format_info
                 (classic_info endian format_type (firstn 24 (content f))) self))
    /\ (16 * length l <= length (content f) - 24)%nat
    /\ Forall (fun p =>
                 exists off,
                   (24 <= off /\ off + 16 <= length (content f))%nat
                   /\ p = record_packet (is_little endian)
                            (is_nanosecond format_type) (content f) off
                   /\ Z.of_nat (length (raw_data p))
                      = field (is_little endian)
                          (slice (off + 8) (off + 12) (content f))) l.
Proof.
  intros Ho Hf Hlen.
  now apply classic_reader_on_any_bytes.
Qed.

(** A header, a record and sixteen bytes that are no record of anyone's
    making. *)
Lemma classic_reader_takes_any_bytes_witness :
  exists l,
    _parse_classic_pcap no_dpkt (always (healthy (scenario ++ garbage_then_epb)))
      (Some little) (Some classic) (new_parser None)
    = Some (Ok tt,
            add_packets l
              (set_format_info
                 (classic_info (Some little) (Some classic)
                    (firstn 24 (content (healthy (scenario ++ garbage_then_epb)))))
                 (new_parser None)))
    /\ (16 * length l
        <= length (content (healthy (scenario ++ garbage_then_epb))) - 24)%nat
    /\ Forall (fun p =>
                 exists off,
                   (24 <= off
                    /\ off + 16
                       <= length (content (healthy (scenario ++ garbage_then_epb))))%nat
                   /\ p = record_packet (is_little (Some little))
                            (is_nanosecond (Some classic))
                            (content (healthy (scenario ++ garbage_then_epb))) off
                   /\ Z.of_nat (length (raw_data p))
                      = field (is_little (Some little))
                          (slice (off + 8) (off + 12)
                             (content (healthy (scenario ++ garbage_then_epb))))) l.
Proof.
  apply (classic_reader_takes_any_bytes no_dpkt
           (always (healthy (scenario ++ garbage_then_epb)))
           (Some little) (Some classic)
           (healthy (scenario ++ garbage_then_epb)) (new_parser None));
    try reflexivity.
  vm_compute. lia.
Defined.

Lemma classic_attempt_short_header f endian format_type self :
  fault f = None -> (length (content f) < 24)%nat ->
  classic_attempt (Ok f) endian format_type self = Some (Raise StructError, self).
Proof.
  intros Hf Hlen. unfold classic_attempt. unfold_monad.
  rewrite read_healthy by assumption.
  change (skipn 0 (content f)) with (content f).
  unfold unpack_IHHIIII. rewrite length_firstn.
  destruct (Nat.eqb_spec (Nat.min 24 (length (content f))) 24); [lia | reflexivity].
Qed.

(** A file sniffed as classic that ends inside its 24-byte global header:
    the classic reader raises [struct.error] before it writes
    [format_info] or appends a packet; without dpkt that error is what
    [parse_file] raises, with dpkt the outcome is that of the dpkt
    fallback. *)
Theorem parse_file_cut_global_header P fs path endian ft f self :
  truthy (Some path) = true ->
  detect_format (fs_open fs path 0%nat) = (endian, Some ft) ->
  ft = classic \/ ft = nanosecond ->
  fs_open fs path 1%nat = Ok f -> fault f = None ->
  (length (content f) < 24)%nat ->
  parse_file P fs (Some path) self
  = if DPKT_AVAILABLE P
    then _parse_with_dpkt P (fs_open fs path 2%nat) (set_filename (Some path) self)
    else Some (Raise StructError, set_filename (Some path) self).
Proof.
  intros Ht Hd Hft Ho Hf Hlen.
  rewrite parse_file_named by assumption. cbv zeta. rewrite Hd.
  assert (H : _parse_classic_pcap P (later (fs_open fs path)) endian (Some ft)
                (set_filename (Some path) self)
              = if DPKT_AVAILABLE P
                then _parse_with_dpkt P (fs_open fs path 2%nat)
                       (set_filename (Some path) self)
                else Some (Raise StructError, set_filename (Some path) self)).
  { unfold _parse_classic_pcap, try_except, later. rewrite Ho.
    rewrite classic_attempt_short_header by assumption.
    destruct (DPKT_AVAILABLE P); reflexivity. }
  destruct Hft; subst ft; exact H.
Qed.

(** The first ten bytes of the scenario. *)
Lemma parse_file_cut_global_header_witness :
  parse_file no_dpkt (one_file (firstn 10 scenario)) (Some "cut.pcap"%string)
    (new_parser None)
  = if DPKT_AVAILABLE no_dpkt
    then _parse_with_dpkt no_dpkt
           (fs_open (one_file (firstn 10 scenario)) "cut.pcap"%string 2%nat)
           (set_filename (Some "cut.pcap"%string) (new_parser None))
    else Some (Raise StructError,
               set_filename (Some "cut.pcap"%string) (new_parser None)).
Proof.
  apply (parse_file_cut_global_header no_dpkt (one_file (firstn 10 scenario))
           "cut.pcap"%string (Some little) classic
           (healthy (firstn 10 scenario)));
    try reflexivity.
  - now left.
  - simpl; lia.
Defined.

(** ** Loading a classic capture *)

(** [load_pcap] on a little-endian classic or nanosecond capture that is
    there, is not empty and reads well, with [N] complete records and fewer
    than 16 bytes after them: it returns normally and the parser holds,
    after the packets it had, exactly the [N] packets of the records, in
    file order, with their payloads and timestamps; it records the
    filename and the fields of the global header. *)
Theorem load_pcap_classic_capture
    P fs path f magic ft header_rest body tail rs sp :
  truthy (Some path) = true ->
  fs_exists fs path = true -> fs_getsize fs path <> 0%nat ->
  fs_open fs path 0%nat = Ok f -> fs_open fs path 1%nat = Ok f ->
  fault f = None ->
  (magic = [Byte.xd4; Byte.xc3; Byte.xb2; Byte.xa1] /\ ft = classic)
  \/ (magic = [Byte.x4d; Byte.x3c; Byte.xb2; Byte.xa1] /\ ft = nanosecond) ->
  content f = (magic ++ header_rest) ++ body ++ tail ->
  length header_rest = 20%nat ->
  holds_records true body rs ->
  (length tail < 16)%nat ->
  load_pcap P fs path sp
  = Some (Ok tt,
          {| sp_filename := Some path;
             parser :=
               add_packets (map (packet_of (FormatType_eqb ft nanosecond)) rs)
                 (set_format_info
                    (classic_info (Some little) (Some ft) (magic ++ header_rest))
                    (set_filename (Some path) (parser sp))) |}).
Proof.
  intros Ht He Hs Ho0 Ho1 Hf Hm Hc Hh Hr Hl.
  assert (Hd : detect_format (Ok f) = (Some little, Some ft)).
  { rewrite (detect_format_first_four_bytes f (healthy magic) Hf eq_refl).
    - destruct Hm as [[-> ->]|[-> ->]]; reflexivity.
    - rewrite Hc. destruct Hm as [[-> _]|[-> _]]; reflexivity. }
  assert (H24 : length (magic ++ header_rest) = 24%nat).
  { rewrite length_app, Hh. destruct Hm as [[-> _]|[-> _]]; reflexivity. }
  assert (Hrun : parse_file P fs (Some path) (parser sp)
                 = Some (Ok tt,
                         add_packets (map (packet_of (FormatType_eqb ft nanosecond)) rs)
                           (set_format_info
                              (classic_info (Some little) (Some ft)
                                 (magic ++ header_rest))
                              (set_filename (Some path) (parser sp))))).
  { rewrite parse_file_named by assumption. cbv zeta. rewrite Ho0, Hd.
    pose proof (classic_reader_complete P (later (fs_open fs path)) (Some little)
                  (Some ft) f (magic ++ header_rest) body tail rs
                  (set_filename (Some path) (parser sp)) Ho1 Hf Hc H24 Hr Hl) as H.
    destruct Hm as [[_ ->]|[_ ->]]; exact H. }
  unfold load_pcap. rewrite He. cbn [negb].
  destruct (Nat.eqb_spec (fs_getsize fs path) 0); [contradiction|].
  cbn [parser]. now rewrite Hrun.
Qed.

(** The global header and the first record of the scenario. *)
Lemma load_pcap_classic_capture_witness :
  load_pcap no_dpkt (one_file (le_global_header ++ le_record1))
    "one.pcap"%string (new_SillyPCAP None)
  = Some (Ok tt,
          {| sp_filename := Some "one.pcap"%string;
             parser :=
               add_packets (map (packet_of (FormatType_eqb classic nanosecond))
                              [record1])
                 (set_format_info
                    (classic_info (Some little) (Some classic)
                       ([Byte.xd4; Byte.xc3; Byte.xb2; Byte.xa1]
                        ++ skipn 4 le_global_header))
                    (set_filename (Some "one.pcap"%string)
                       (parser (new_SillyPCAP None)))) |}).
Proof.
  apply (load_pcap_classic_capture no_dpkt
           (one_file (le_global_header ++ le_record1)) "one.pcap"%string
           (healthy (le_global_header ++ le_record1))
           [Byte.xd4; Byte.xc3; Byte.xb2; Byte.xa1] classic
           (skipn 4 le_global_header) le_record1 [] [record1]);
    try reflexivity.
  - vm_compute. discriminate.
  - left. split; reflexivity.
  - exact le_record1_holds.
  - simpl; lia.
Defined.

(** ** The scanning fallback on arbitrary bytes *)

Lemma block_packets_scanned data pos :
  reaches data pos -> Forall (scanned_block data) (block_packets data pos).
Proof.
  intros Hr. unfold block_packets.
  destruct (Z.eqb_spec (u32_at data pos) 6) as [Hty|]; [|constructor].
  destruct (Z.leb_spec 32 (u32_at data (pos + 4))) as [H32|]; [|constructor].
  destruct (Z.leb_spec (Z.of_nat (pos + 16) + u32_at data (pos + 12))
              (Z.of_nat (length data))) as [Hin|]; [|constructor].
  cbn [andb]. constructor; [|constructor].
  pose proof (u32_at_nonneg data (pos + 12)) as H0.
  assert (Hlen : length (raw_data (epb_packet data pos))
                 = Z.to_nat (u32_at data (pos + 12))).
  { unfold epb_packet; cbn [raw_data new_packet].
    rewrite slice_length by lia. lia. }
  exists pos. repeat split; try assumption; rewrite Hlen; lia.
Qed.

(** From an offset the walk reaches, the loop ends without an exception;
    its count is the number of packets it appended, and each of them is the
    packet of a block on the walk. *)
Lemma scan_loop_packets data fuel :
  forall pos count self,
    reaches data pos ->
    (length data - pos < fuel)%nat ->
    exists pos' l,
      while fuel (scan_turn data) (pos, count) self
      = Some (Ok (pos', (count + length l)%nat), add_packets l self)
      /\ Forall (scanned_block data) l.
Proof.
  induction fuel as [|fuel IH]; intros pos count self Hr Hf; [lia|].
  destruct (scan_stops data pos) eqn:Hs.
  - exists pos, []. simpl length. rewrite Nat.add_0_r, add_packets_nil.
    split; [|constructor].
    apply while_break. now rewrite scan_turn_spec, Hs.
  - destruct (scan_stops_false _ _ Hs) as [H16 Hbl].
    pose proof (next_pos_grows pos _ (proj1 Hbl)) as Hg.
    destruct (IH (next_pos pos (u32_at data (pos + 4)))
                (count + length (block_packets data pos))%nat
                (add_packets (block_packets data pos) self)
                (reaches_next data pos Hr H16 Hbl) ltac:(lia))
      as [pos' [l [Hl Hall]]].
    exists pos', (block_packets data pos ++ l). split.
    + rewrite (while_continue _ _ _ _ _ _
                 ltac:(rewrite scan_turn_spec, Hs; reflexivity)).
      rewrite Hl, add_packets_app, length_app, Nat.add_assoc. reflexivity.
    + apply Forall_app. split; [now apply block_packets_scanned | assumption].
Qed.

Lemma _parse_pcapng_fallback_unfolded o self :
  _parse_pcapng_fallback o self
  = match o with
    | Raise e => Some (Raise (ValueError (CouldNotParse e)), self)
    | Ok f =>
        match read_all f 0 with
        | Raise e => Some (Raise (ValueError (CouldNotParse e)), self)
        | Ok data =>
            match scan data self with
            | Some (Ok s, self') =>
                if (0 <? snd s)%nat then Some (Ok tt, self')
                else Some (Raise (ValueError (CouldNotParse
                                                (ValueError NoPacketsFound))),
                           self')
            | Some (Raise e, self') =>
                Some (Raise (ValueError (CouldNotParse e)), self')
            | None => None
            end
        end
    end.
Proof.
  unfold _parse_pcapng_fallback, try_except, scan_attempt. unfold_monad.
  destruct o as [f|e]; [|reflexivity].
  destruct (read_all f 0) as [data|e]; [|reflexivity].
  destruct (scan data self) as [[[s|e] self']|]; try reflexivity.
  destruct (0 <? snd s)%nat; reflexivity.
Qed.

(** [_parse_pcapng_fallback] is all or nothing, whatever it is given: either
    it returns normally and has appended at least one packet, each the
    packet of a type-6 block on the walk of the scan with its payload inside
    the buffer; or it raises a [ValueError] and leaves the session as it
    was. *)
Theorem scanning_fallback_all_or_nothing o self :
  (exists f l,
     o = Ok f /\ l <> []
     /\ _parse_pcapng_fallback o self = Some (Ok tt, add_packets l self)
     /\ Forall (scanned_block (content f)) l)
  \/ (exists cause,
        _parse_pcapng_fallback o self
        = Some (Raise (ValueError (CouldNotParse cause)), self)).
Proof.
  rewrite _parse_pcapng_fallback_unfolded.
  destruct o as [f|e]; [|right; eexists; reflexivity].
  destruct (read_all f 0) as [data|e] eqn:R; [|right; eexists; reflexivity].
  assert (Hd : data = content f).
  { unfold read_all in R. apply read_Ok in R. subst data. apply firstn_all. }
  subst data. unfold scan.
  destruct (scan_loop_packets (content f) (S (length (content f))) 0%nat 0%nat self
              (reaches_start _) ltac:(lia)) as [pos' [l [Hl Hall]]].
  rewrite Hl. cbn [snd Nat.add].
  destruct l as [|p l].
  - right. rewrite add_packets_nil. eexists; reflexivity.
  - left. exists f, (p :: l). repeat split; [discriminate | assumption].
Qed.

Lemma uint_le_bound bs : uint_le bs < 256 ^ Z.of_nat (length bs).
Proof.
  induction bs as [|b bs IH]; [simpl; lia|].
  change (uint_le (b :: bs)) with (Z_of_byte b + 256 * uint_le bs).
  pose proof (Z_of_byte_bound b). pose proof (uint_le_nonneg bs).
  cbn [length]. rewrite Nat2Z.inj_succ, Z.pow_succ_r by lia. lia.
Qed.

Lemma u32_at_bound data pos : 0 <= u32_at data pos < 2 ^ 32.
Proof.
  split; [apply u32_at_nonneg|]. unfold u32_at.
  pose proof (uint_le_bound (slice pos (pos + 4) data)) as H.
  assert (Hl : (length (slice pos (pos + 4) data) <= 4)%nat)
    by (unfold slice; rewrite length_firstn; lia).
  assert (256 ^ Z.of_nat (length (slice pos (pos + 4) data)) <= 256 ^ 4)
    by (apply Z.pow_le_mono_r; lia).
  change (2 ^ 32) with (256 ^ 4). lia.
Qed.

Lemma lor_shiftl_32 h l :
  0 <= h -> 0 <= l < 2 ^ 32 -> Z.lor (Z.shiftl h 32) l = h * 2 ^ 32 + l.
Proof.
  intros Hh Hl. rewrite Z.shiftl_mul_pow2 by lia.
  assert (Hz : Z.land (h * 2 ^ 32) l = 0).
  { apply Z.bits_inj'. intros n Hn. rewrite Z.land_spec, Z.bits_0.
    destruct (Z.lt_ge_cases n 32) as [Hlt|Hge].
    - now rewrite Z.mul_pow2_bits_low.
    - destruct (Z.eq_dec l 0) as [->|Hne].
      + now rewrite Z.bits_0, andb_false_r.
      + rewrite (Z.bits_above_log2 l n); [apply andb_false_r | lia |].
        assert (Z.log2 l < 32) by (apply Z.log2_lt_pow2; lia). lia. }
  pose proof (Z.add_lor_land (h * 2 ^ 32) l). lia.
Qed.

(** The timestamp the scan gives a packet is a count of microseconds whose
    low 32 bits are the length of the packet's payload: the scan reads the
    low half of the timestamp from the word it has just read as the
    captured length. *)
Theorem scanned_timestamp_holds_the_payload_length data pos :
  Z.of_nat (pos + 16) + u32_at data (pos + 12) <= Z.of_nat (length data) ->
  timestamp (epb_packet data pos)
  = true_div (u32_at data (pos + 8) * 2 ^ 32
              + Z.of_nat (length (raw_data (epb_packet data pos))))
             1000000.
Proof.
  intros Hin. pose proof (u32_at_bound data (pos + 12)) as Hb.
  pose proof (u32_at_bound data (pos + 8)) as Hb8.
  unfold epb_packet; cbn [timestamp raw_data new_packet].
  rewrite slice_length by lia.
  rewrite lor_shiftl_32 by lia.
  do 2 f_equal. lia.
Qed.

(** The block at offset 28 of [sample_pcapng]. *)
Lemma scanned_timestamp_holds_the_payload_length_witness :
  timestamp (epb_packet sample_pcapng 28)
  = true_div (u32_at sample_pcapng (28 + 8) * 2 ^ 32
              + Z.of_nat (length (raw_data (epb_packet sample_pcapng 28))))
             1000000.
Proof.
  apply scanned_timestamp_holds_the_payload_length. vm_compute. discriminate.
Defined.

(** ** The orchestrator *)

(** What [parse_file] does once the filename is settled. *)
Lemma steady_parse_classic P opens endian format_type :
  steady (_parse_classic_pcap P opens endian format_type).
Proof.
  unfold _parse_classic_pcap.
  apply steady_try_except; [apply steady_classic_attempt|].
  intros e. destruct (DPKT_AVAILABLE P); [apply steady_dpkt | apply steady_raise].
Qed.

Lemma steady_parse_pcapng P opens : steady (_parse_pcapng P opens).
Proof.
  unfold _parse_pcapng. destruct (negb _); [apply steady_raise|].
  apply steady_try_except; [apply steady_pcapng_attempt|].
  intros _. apply steady_fallback.
Qed.

Lemma set_filename_same self : set_filename (filename self) self = self.
Proof. now destruct self. Qed.

(** [parse_file] called without a filename (with [None] or with the empty
    string) uses the filename the session holds and behaves as if it had
    been given that name again; when the session holds none either, it
    raises [ValueError] and leaves the session as it was, whatever the file
    system holds. *)
Theorem parse_file_without_filename P fs name self :
  truthy name = false ->
  parse_file P fs name self
  = if truthy (filename self) then parse_file P fs (filename self) self
    else Some (Raise (ValueError NoFilename), self).
Proof.
  intros Hn. unfold parse_file at 1. rewrite Hn.
  unfold bind at 1. unfold ret at 1. unfold bind at 1. unfold get at 1.
  destruct (truthy (filename self)) eqn:Hs.
  - destruct (filename self) as [path|] eqn:Hf; [|discriminate].
    rewrite parse_file_named by assumption.
    assert (E : set_filename (Some path) self = self)
      by (rewrite <- Hf; apply set_filename_same).
    rewrite E. reflexivity.
  - destruct (filename self) as [path|]; reflexivity.
Qed.

(** A session made for "one.pcap", then [parse_file()] without argument. *)
Lemma parse_file_without_filename_witness :
  parse_file no_dpkt (one_file (le_global_header ++ le_record1)) None
    (new_parser (Some "one.pcap"%string))
  = if truthy (filename (new_parser (Some "one.pcap"%string)))
    then parse_file no_dpkt (one_file (le_global_header ++ le_record1))
           (filename (new_parser (Some "one.pcap"%string)))
           (new_parser (Some "one.pcap"%string))
    else Some (Raise (ValueError NoFilename), new_parser (Some "one.pcap"%string)).
Proof.
  apply parse_file_without_filename. reflexivity.
Defined.

Lemma steady_dispatch P fs path :
  steady
    (let opens := fs_open fs path in
     let '(endian, format_type) := detect_format (opens 0%nat) in
     match format_type with
     | Some pcapng => _parse_pcapng P (later opens)
     | Some classic | Some nanosecond =>
         _parse_classic_pcap P (later opens) endian format_type
     | _ =>
         if DPKT_AVAILABLE P then _parse_with_dpkt P (opens 1%nat)
         else raise (ValueError UnknownFileFormat)
     end).
Proof.
  cbv zeta. destruct (detect_format _) as [endian [[| | |]|]];
    try apply steady_parse_classic; try apply steady_parse_pcapng;
    destruct (DPKT_AVAILABLE P); first [apply steady_dpkt | apply steady_raise].
Qed.

(** [parse_file] never resets the session: it keeps the packets that are
    there and appends to them. A second call on the same file, answered by
    the file system as the first was, has the same outcome and appends the
    same packets once more. *)
Theorem parse_file_accumulates P fs path self r self1 :
  truthy (Some path) = true ->
  parse_file P fs (Some path) self = Some (r, self1) ->
  packets self1 = packets self ++ frames_of (parse_file P fs (Some path))
  /\ exists self2,
       parse_file P fs (Some path) self1 = Some (r, self2)
       /\ packets self2
          = packets self ++ frames_of (parse_file P fs (Some path))
            ++ frames_of (parse_file P fs (Some path)).
Proof.
  intros Ht H1.
  destruct (steady_dispatch P fs path) as [o [l Hd]].
  assert (Hrun : forall s r' s',
             parse_file P fs (Some path) s = Some (r', s') ->
             o = Some r' /\ packets s' = packets s ++ l).
  { intros s r' s' H. rewrite parse_file_named in H by assumption.
    destruct (Hd (set_filename (Some path) s)) as [Ho Hp].
    rewrite H in Ho. split; [now symmetry|]. now rewrite (Hp _ _ H). }
  assert (Hsome : forall s, exists s',
             parse_file P fs (Some path) s = Some (r, s')).
  { intros s. destruct (Hrun _ _ _ H1) as [Ho _].
    rewrite parse_file_named by assumption.
    destruct (Hd (set_filename (Some path) s)) as [Ho' _].
    destruct (_ (set_filename (Some path) s)) as [[r' s']|]; simpl in Ho'.
    - exists s'. congruence.
    - congruence. }
  assert (Hl : frames_of (parse_file P fs (Some path)) = l).
  { unfold frames_of. destruct (Hsome (new_parser None)) as [s0 H0].
    rewrite H0. now destruct (Hrun _ _ _ H0) as [_ ->]. }
  rewrite Hl. destruct (Hrun _ _ _ H1) as [_ Hp1]. split; [assumption|].
  destruct (Hsome self1) as [self2 H2]. exists self2. split; [assumption|].
  destruct (Hrun _ _ _ H2) as [_ Hp2]. rewrite Hp2, Hp1. now rewrite app_assoc.
Qed.

(** The one-record capture, parsed twice. *)
Lemma parse_file_accumulates_witness :
  packets
    (add_packets [packet_of false record1]
       (set_format_info
          (classic_info (Some little) (Some classic) le_global_header)
          (new_parser (Some "one.pcap"%string))))
  = packets (new_parser None)
    ++ frames_of (parse_file no_dpkt (one_file (le_global_header ++ le_record1))
                    (Some "one.pcap"%string))
  /\ exists self2,
       parse_file no_dpkt (one_file (le_global_header ++ le_record1))
         (Some "one.pcap"%string)
         (add_packets [packet_of false record1]
            (set_format_info
               (classic_info (Some little) (Some classic) le_global_header)
               (new_parser (Some "one.pcap"%string))))
       = Some (Ok tt, self2)
       /\ packets self2
          = packets (new_parser None)
            ++ frames_of (parse_file no_dpkt
                            (one_file (le_global_header ++ le_record1))
                            (Some "one.pcap"%string))
            ++ frames_of (parse_file no_dpkt
                            (one_file (le_global_header ++ le_record1))
                            (Some "one.pcap"%string)).
Proof.
  apply (parse_file_accumulates no_dpkt (one_file (le_global_header ++ le_record1))
           "one.pcap"%string (new_parser None) (Ok tt)).
  - reflexivity.
  - vm_compute. reflexivity.
Defined.

Lemma enumerate_from_ids i ifaces :
  map (fun x => fst (fst x)) (enumerate_from i ifaces)
  = seq i (length (enumerate_from i ifaces))
  /\ map (fun x => (snd (fst x), snd x)) (enumerate_from i ifaces) = ifaces.
Proof.
  revert i; induction ifaces as [|[snaplen linktype] ifaces IH]; intros i.
  - split; reflexivity.
  - destruct (IH (S i)) as [H1 H2]. simpl. rewrite H1, H2. split; reflexivity.
Qed.

(** A file sniffed as pcapng, on a host with dpkt that builds a reader for
    it. The loop [for buf, ts in reader] takes the pairs [(ts, buf)] the
    reader yields the other way round, so that [QuantumPacket] is given
    the timestamp as raw data and the bytes of the packet as timestamp.
    [parse_file] therefore appends, for each item up to the first whose
    bytes spell no number, a packet holding the text of the item's
    timestamp, dated by the number its bytes spell; it returns normally
    only when the bytes of every item spell a number and the iteration
    ends without an exception, and otherwise goes on with the scanning
    fallback from there. In particular, when the bytes of the first packet
    spell no number, the reader contributes no packet at all and the
    outcome of the call is that of the scanning fallback. [format_info]
    says pcapng and lists the reader's interfaces, numbered from 0. *)
Theorem parse_file_pcapng_with_dpkt P fs path endian f reader self :
  truthy (Some path) = true ->
  detect_format (fs_open fs path 0%nat) = (endian, Some pcapng) ->
  DPKT_AVAILABLE P = true ->
  fs_open fs path 1%nat = Ok f ->
  pcapng_Reader P f = Ok reader ->
  parse_file P fs (Some path) self
  = (if all_numbers (rd_items reader) && ends_normally reader
     then Some (Ok tt,
                add_packets (swapped_packets (rd_items reader))
                  (set_format_info (pcapng_info (interfaces_of reader))
                     (set_filename (Some path) self)))
     else _parse_pcapng_fallback (fs_open fs path 2%nat)
            (add_packets (swapped_packets (rd_items reader))
               (set_format_info (pcapng_info (interfaces_of reader))
                  (set_filename (Some path) self))))
  /\ (forall ts buf rest,
        rd_items reader = (ts, buf) :: rest ->
        float_of_bytes buf = None ->
        parse_file P fs (Some path) self
        = _parse_pcapng_fallback (fs_open fs path 2%nat)
            (set_format_info (pcapng_info (interfaces_of reader))
               (set_filename (Some path) self)))
  /\ map (fun x => fst (fst x)) (interfaces_of reader)
     = seq 0 (length (interfaces_of reader))
  /\ map (fun x => (snd (fst x), snd x)) (interfaces_of reader)
     = match rd_interfaces reader with Some l => l | None => [] end.
Proof.
  intros Ht Hd Ha Ho Hr.
  assert (E : parse_file P fs (Some path) self
              = (if all_numbers (rd_items reader) && ends_normally reader
                 then Some (Ok tt,
                            add_packets (swapped_packets (rd_items reader))
                              (set_format_info
                                 (pcapng_info (interfaces_of reader))
                                 (set_filename (Some path) self)))
                 else _parse_pcapng_fallback (fs_open fs path 2%nat)
                        (add_packets (swapped_packets (rd_items reader))
                           (set_format_info
                              (pcapng_info (interfaces_of reader))
                              (set_filename (Some path) self))))).
  { rewrite parse_file_named by assumption. cbv zeta. rewrite Hd.
    unfold _parse_pcapng, try_except, later. rewrite Ha; cbn [negb].
    rewrite Ho. unfold pcapng_attempt. unfold_monad. rewrite Hr.
    unfold interfaces_of, ends_normally.
    destruct (rd_interfaces reader) as [l|]; rewrite drain_pcapng_spec;
      destruct (all_numbers (rd_items reader));
      destruct (rd_raises reader); reflexivity. }
  split; [exact E|]. split.
  - intros ts buf rest Hi Hn. rewrite E, Hi.
    cbn [all_numbers forallb swapped_packets snd]. rewrite Hn.
    cbn [andb]. now rewrite add_packets_nil.
  - unfold interfaces_of. destruct (rd_interfaces reader) as [l|].
    + apply enumerate_from_ids.
    + split; reflexivity.
Qed.

(** [sample_pcapng] on a host whose reader yields one packet, the two bytes
    ca fe taken at 2.5, and knows two interfaces: the two bytes spell no
    number, and the only packet held in the end is the one of the scan. *)
Lemma parse_file_pcapng_with_dpkt_witness :
  float_of_bytes (bytes_of [0xca; 0xfe]) = None
  /\ parse_file dpkt_reads_one (one_file sample_pcapng)
       (Some "a.pcapng"%string) (new_parser None)
     = _parse_pcapng_fallback (fs_open (one_file sample_pcapng) "a.pcapng" 2%nat)
         (set_format_info
            (pcapng_info
               (interfaces_of
                  {| rd_interfaces := Some [(65535, 1); (262144, 105)];
                     rd_items := [(2.5%float, bytes_of [0xca; 0xfe])];
                     rd_raises := None |}))
            (set_filename (Some "a.pcapng"%string) (new_parser None)))
  /\ parse_file dpkt_reads_one (one_file sample_pcapng)
       (Some "a.pcapng"%string) (new_parser None)
     = Some (Ok tt,
             add_packets [epb_packet sample_pcapng 28]
               (set_format_info
                  (pcapng_info [(0%nat, 65535, 1); (1%nat, 262144, 105)])
                  (new_parser (Some "a.pcapng"%string)))).
Proof.
  split; [vm_compute; reflexivity|].
  split; [|vm_compute; reflexivity].
  apply (proj1 (proj2
           (parse_file_pcapng_with_dpkt dpkt_reads_one (one_file sample_pcapng)
              "a.pcapng"%string (Some little) (healthy sample_pcapng)
              {| rd_interfaces := Some [(65535, 1); (262144, 105)];
                 rd_items := [(2.5%float, bytes_of [0xca; 0xfe])];
                 rd_raises := None |}
              (new_parser None) eq_refl eq_refl eq_refl eq_refl eq_refl))
           2.5%float (bytes_of [0xca; 0xfe]) [] eq_refl).
  vm_compute; reflexivity.
Defined.

Lemma _parse_with_dpkt_healthy P f self :
  DPKT_AVAILABLE P = true -> fault f = None ->
  _parse_with_dpkt P (Ok f) self
  = match (if list_eq_dec Byte.byte_eq_dec (firstn 4 (content f)) pcapng_magic
           then pcapng_Reader P f else pcap_Reader P f) with
    | Raise e => Some (Raise e, self)
    | Ok reader =>
        match rd_raises reader with
        | Some e => Some (Raise e, add_packets (packets_of reader) self)
        | None =>
            Some (Ok tt, set_parsed_with_dpkt (add_packets (packets_of reader) self))
        end
    end.
Proof.
  intros Ha Hf.
  unfold _parse_with_dpkt, try_except, dpkt_attempt. rewrite Ha; cbn [negb].
  unfold_monad. rewrite read_first_four by assumption.
  destruct (if list_eq_dec _ _ _ then _ else _) as [reader|e]; [|reflexivity].
  rewrite drain_spec. destruct (rd_raises reader); reflexivity.
Qed.

(** A file that is not sniffed as classic, nanosecond or pcapng (not
    recognized at all, or taken for a wireless capture), on a host with
    dpkt, is handed to dpkt: to its pcapng reader when the file begins
    with the pcapng marker and to its pcap reader otherwise. What the
    constructor raises is raised unchanged with the session as it was; what
    the iteration raises is raised unchanged with the packets yielded so far
    kept; and when it ends normally the packets yielded are appended and
    [format_info] says they were parsed with dpkt. *)
Theorem parse_file_unrecognized_with_dpkt P fs path endian ft f self :
  truthy (Some path) = true ->
  detect_format (fs_open fs path 0%nat) = (endian, ft) ->
  ft = None \/ ft = Some wireless_cap ->
  DPKT_AVAILABLE P = true ->
  fs_open fs path 1%nat = Ok f -> fault f = None ->
  parse_file P fs (Some path) self
  = match (if list_eq_dec Byte.byte_eq_dec (firstn 4 (content f)) pcapng_magic
           then pcapng_Reader P f else pcap_Reader P f) with
    | Raise e => Some (Raise e, set_filename (Some path) self)
    | Ok reader =>
        match rd_raises reader with
        | Some e =>
            Some (Raise e,
                  add_packets (packets_of reader) (set_filename (Some path) self))
        | None =>
            Some (Ok tt,
                  set_parsed_with_dpkt
                    (add_packets (packets_of reader)
                       (set_filename (Some path) self)))
        end
    end.
Proof.
  intros Ht Hd Hft Ha Ho Hf.
  rewrite parse_file_named by assumption. cbv zeta. rewrite Hd.
  pose proof (_parse_with_dpkt_healthy P f (set_filename (Some path) self) Ha Hf)
    as H.
  rewrite <- Ho in H at 1.
  destruct Hft; subst ft; rewrite Ha; exact H.
Qed.

(** A capture that begins with ff ff, read by dpkt's pcap reader. *)
Lemma parse_file_unrecognized_with_dpkt_witness :
  parse_file dpkt_reads_one (one_file sample_wireless) (Some "w.cap"%string)
    (new_parser None)
  = Some (Ok tt,
          set_parsed_with_dpkt
            (add_packets [new_packet (bytes_of [0xca; 0xfe]) 2.5%float]
               (set_filename (Some "w.cap"%string) (new_parser None)))).
Proof.
  apply (parse_file_unrecognized_with_dpkt dpkt_reads_one (one_file sample_wireless)
           "w.cap"%string (Some unknown) (Some wireless_cap)
           (healthy sample_wireless));
    try reflexivity.
  now right.
Defined.

(** ** Measuring a packet *)

Lemma slice_12_14 (data : list byte) :
  (14 <= length data)%nat ->
  exists b12 b13,
    nth_error data 12 = Some b12 /\ nth_error data 13 = Some b13
    /\ slice 12 14 data = [b12; b13].
Proof.
  intros H. unfold slice. change (14 - 12)%nat with 2%nat.
  pose proof (length_skipn 12 data) as Hl.
  pose proof (nth_error_skipn 12 data 0) as H0.
  pose proof (nth_error_skipn 12 data 1) as H1.
  change (12 + 0)%nat with 12%nat in H0. change (12 + 1)%nat with 13%nat in H1.
  destruct (skipn 12 data) as [|b12 [|b13 rest]]; cbn [length] in Hl; try lia.
  exists b12, b13. cbn [nth_error] in H0, H1.
  split; [now symmetry | split; [now symmetry | reflexivity]].
Qed.

(** [collapse()] reads the protocol off bytes 12 and 13 of the payload, most
    significant first: the state it sets and returns is "Too_Short" exactly
    when the payload has fewer than 14 bytes, and otherwise IPv4, ARP or
    IPv6 exactly for the ether types 0x0800, 0x0806 and 0x86DD and "Unknown"
    with the ether type, below 65536, for every other; it is never
    "Corrupted", and a payload that is too short leaves [observables] as
    they were. *)
Theorem collapse_reads_the_ether_type data m :
  let r := fst (collapse "protocol" data m) in
  let m' := snd (collapse "protocol" data m) in
  r = state m'
  /\ r <> None /\ r <> Some Corrupted
  /\ (r = Some Too_Short <-> (length data < 14)%nat)
  /\ ((length data < 14)%nat ->
      protocol_measured m' = protocol_measured m
      /\ position_uncertainty m' = position_uncertainty m)
  /\ ((14 <= length data)%nat ->
      exists b12 b13,
        nth_error data 12 = Some b12 /\ nth_error data 13 = Some b13
        /\ let e := 256 * Z_of_byte b12 + Z_of_byte b13 in
           0 <= e < 65536
           /\ protocol_measured m' = Some true
           /\ (r = Some IPv4 <-> e = 0x0800)
           /\ (r = Some ARP <-> e = 0x0806)
           /\ (r = Some IPv6 <-> e = 0x86DD)
           /\ (e <> 0x0800 -> e <> 0x0806 -> e <> 0x86DD -> r = Some (Unknown e))).
Proof.
  cbv zeta. unfold collapse. cbn [String.eqb Ascii.eqb Bool.eqb andb].
  change (String.eqb "protocol" "protocol") with true. cbv iota.
  destruct (Nat.leb_spec 14 (length data)) as [Hl|Hl].
  - destruct (slice_12_14 data Hl) as [b12 [b13 [H12 [H13 Hs]]]].
    rewrite Hs. unfold unpack_H. cbn [length Nat.eqb fst snd state
                                       protocol_measured position_uncertainty].
    unfold uint_be. cbn [rev app].
    change (uint_le [b13; b12])
      with (Z_of_byte b13 + 256 * (Z_of_byte b12 + 256 * 0)).
    pose proof (Z_of_byte_bound b12). pose proof (Z_of_byte_bound b13).
    replace (Z_of_byte b13 + 256 * (Z_of_byte b12 + 256 * 0))
      with (256 * Z_of_byte b12 + Z_of_byte b13) by lia.
    set (e := 256 * Z_of_byte b12 + Z_of_byte b13) in *.
    assert (Hp : protocol_of e <> Corrupted /\ protocol_of e <> Too_Short
                 /\ (protocol_of e = IPv4 <-> e = 0x0800)
                 /\ (protocol_of e = ARP <-> e = 0x0806)
                 /\ (protocol_of e = IPv6 <-> e = 0x86DD)
                 /\ (e <> 0x0800 -> e <> 0x0806 -> e <> 0x86DD ->
                     protocol_of e = Unknown e)).
    { unfold protocol_of.
      destruct (Z.eqb_spec e 0x0800); [|destruct (Z.eqb_spec e 0x0806);
                                         [|destruct (Z.eqb_spec e 0x86DD)]];
        repeat split; intros; try discriminate; try congruence; try lia. }
    destruct Hp as [Hc [Hts [H4 [Ha [H6 Hu]]]]].
    split; [reflexivity|]. split; [discriminate|].
    split; [intros [= E]; now apply Hc|].
    split; [split; [intros [= E]; now apply Hts in E | lia]|].
    split; [lia|]. intros _. exists b12, b13.
    split; [assumption|]. split; [assumption|]. cbv zeta. fold e.
    split; [lia|]. split; [reflexivity|].
    split; [split; [intros [= E]; now apply H4 | intros E; f_equal; now apply H4]|].
    split; [split; [intros [= E]; now apply Ha | intros E; f_equal; now apply Ha]|].
    split; [split; [intros [= E]; now apply H6 | intros E; f_equal; now apply H6]|].
    intros; f_equal; now apply Hu.
  - cbn [fst snd state protocol_measured position_uncertainty].
    split; [reflexivity|]. split; [discriminate|]. split; [discriminate|].
    split; [split; [intros _; assumption | reflexivity]|].
    split; [split; reflexivity | lia].
Qed.

(** ** The declared length is trusted *)

Lemma Z_of_byte_of_Z z : Z_of_byte (byte_of_Z z) = z mod 256.
Proof.
  unfold Z_of_byte, byte_of_Z.
  assert (Hb : 0 <= z mod 256 < 256) by (apply Z.mod_pos_bound; lia).
  destruct (Byte.of_N (Z.to_N (z mod 256))) as [b|] eqn:E.
  - apply Byte.to_of_N in E. rewrite E. lia.
  - apply Byte.of_N_None_iff in E. lia.
Qed.

Lemma uint_le_le32 n : 0 <= n < 2 ^ 32 -> uint_le (le32 n) = n.
Proof.
  intros H. unfold le32.
  change (uint_le [byte_of_Z n; byte_of_Z (n / 256); byte_of_Z (n / 65536);
                   byte_of_Z (n / 16777216)])
    with (Z_of_byte (byte_of_Z n)
          + 256 * (Z_of_byte (byte_of_Z (n / 256))
          + 256 * (Z_of_byte (byte_of_Z (n / 65536))
          + 256 * (Z_of_byte (byte_of_Z (n / 16777216)) + 256 * 0)))).
  rewrite !Z_of_byte_of_Z. change (2 ^ 32) with 4294967296 in H.
  Z.div_mod_to_equations. lia.
Qed.

(** The classic reader does not check the declared length of a record
    against the snapshot length of the global header or against the size of
    the file: for every [L] below 2^32, a file of 40 bytes whose global
    header declares a snapshot length of 65535 and whose only record header
    declares [L] payload bytes is read without an error into one packet of
    [L] zero bytes. *)
Theorem classic_reader_trusts_the_declared_length P L self :
  0 < L < 2 ^ 32 ->
  length (le_global_header ++ header_declaring L) = 40%nat
  /\ exists self',
       _parse_classic_pcap P
         (always (healthy (le_global_header ++ header_declaring L)))
         (Some little) (Some classic) self
       = Some (Ok tt, self')
       /\ fi_snaplen (format_info self') = Some 65535
       /\ packets self'
          = packets self ++ [new_packet (repeat Byte.x00 (Z.to_nat L)) 0%float].
Proof.
  intros HL. split; [reflexivity|].
  assert (Hu : unpack_IIII true (header_declaring L) = Ok (0, 0, L, 0)).
  { unfold unpack_IIII, header_declaring. cbn [length repeat app le32 Nat.eqb].
    unfold slice, field. cbn [Nat.sub skipn firstn].
    change (Ok (uint_le (repeat Byte.x00 4), uint_le (repeat Byte.x00 4),
                uint_le (le32 L), uint_le (repeat Byte.x00 4))
            = Ok (0, 0, L, 0)).
    rewrite uint_le_le32 by lia. reflexivity. }
  eexists. split; [|split].
  - apply _parse_classic_pcap_ok.
    apply (classic_attempt_truncated (Some little) (Some classic)
             (healthy (le_global_header ++ header_declaring L))
             le_global_header [] [] eq_refl eq_refl (holds_nil true)
             (header_declaring L) 0 0 L 0 []).
    + cbn [healthy content app]. now rewrite app_nil_r.
    + exact Hu.
    + simpl; lia.
  - reflexivity.
  - cbn [packets add_packets set_format_info map app length Z.of_nat].
    rewrite Z.sub_0_r. reflexivity.
Qed.

(** A record header that declares 1000000 bytes. *)
Lemma classic_reader_trusts_the_declared_length_witness :
  length (le_global_header ++ header_declaring 1000000) = 40%nat
  /\ exists self',
       _parse_classic_pcap no_dpkt
         (always (healthy (le_global_header ++ header_declaring 1000000)))
         (Some little) (Some classic) (new_parser None)
       = Some (Ok tt, self')
       /\ fi_snaplen (format_info self') = Some 65535
       /\ packets self'
          = packets (new_parser None)
            ++ [new_packet (repeat Byte.x00 (Z.to_nat 1000000)) 0%float].
Proof.
  apply (classic_reader_trusts_the_declared_length no_dpkt 1000000
           (new_parser None)).
  lia.
Defined.

(** ** The classic reader and a read error *)

Section ClassicFault.

Variables (lt nano : bool) (f : File) (q : nat) (errno : Z).
Hypothesis f_fault : fault f = Some (q, errno).

(** A read that stays below the faulty offset goes well. *)
Lemma read_below pre mid post :
  content f = pre ++ mid ++ post -> (length (pre ++ mid) <= q)%nat ->
  read f (length pre) (length mid) = Ok mid.
Proof.
  intros Hc Hq. unfold read. rewrite f_fault, Hc, firstn_skipn_middle.
  rewrite length_app in Hq.
  destruct (Nat.ltb_spec q (length pre + length mid)); [lia | reflexivity].
Qed.

(** A read that would return the byte at the faulty offset raises. *)
Lemma read_hits pre rest n :
  content f = pre ++ rest ->
  (length pre <= q < length pre + Nat.min n (length rest))%nat ->
  read f (length pre) n = Raise (OSError errno).
Proof.
  intros Hc Hq. unfold read. rewrite f_fault, Hc.
  rewrite skipn_app, skipn_all, Nat.sub_diag. cbn [skipn app].
  rewrite length_firstn.
  destruct (Nat.ltb_spec q (length pre + Nat.min n (length rest)));
    [reflexivity | lia].
Qed.

Lemma classic_turn_record_below pre hdr r rest self :
  content f = pre ++ hdr ++ payload r ++ rest ->
  (length (pre ++ hdr ++ payload r) <= q)%nat ->
  unpack_IIII lt hdr = Ok (ts_sec r, ts_frac r, incl_len r, orig_len r) ->
  Z.of_nat (length (payload r)) = incl_len r ->
  classic_turn lt nano f (length pre) self
  = Some (Ok (Continue (length (pre ++ hdr ++ payload r))),
          add_packets [packet_of nano r] self).
Proof.
  intros Hc Hq Hu Hl. pose proof (unpack_IIII_length _ _ _ Hu) as H16.
  rewrite !length_app in Hq.
  unfold classic_turn. unfold_monad.
  assert (R1 : read f (length pre) 16 = Ok hdr).
  { rewrite <- H16. apply read_below with (post := payload r ++ rest);
      [assumption | rewrite length_app; lia]. }
  rewrite R1, H16; simpl. rewrite Hu; simpl.
  assert (R2 : read f (length pre + 16) (Z.to_nat (incl_len r)) = Ok (payload r)).
  { rewrite <- Hl, Nat2Z.id, <- H16, <- length_app.
    apply read_below with (post := rest);
      [now rewrite <- app_assoc | rewrite !length_app; lia]. }
  rewrite R2; simpl. unfold pad_packet.
  destruct (Z.ltb_spec (Z.of_nat (length (payload r))) (incl_len r)); [lia|].
  rewrite !length_app, H16, Nat.add_assoc. reflexivity.
Qed.

Lemma classic_loop_records_below body rs :
  holds_records lt body rs ->
  forall pre tail fuel self,
    content f = pre ++ body ++ tail ->
    (length (pre ++ body) <= q)%nat ->
    while (length rs + fuel) (classic_turn lt nano f) (length pre) self
    = while fuel (classic_turn lt nano f) (length (pre ++ body))
        (add_packets (map (packet_of nano) rs) self).
Proof.
  induction 1 as [|hdr r rest rs Hu Hl Hrest IH]; intros pre tail fuel self Hc Hq.
  - simpl. now rewrite app_nil_r, add_packets_nil.
  - cbn [length Nat.add map].
    rewrite (while_continue _ _ _ _ _ _
               (classic_turn_record_below pre hdr r (rest ++ tail) self
                  ltac:(now rewrite Hc, <- !app_assoc)
                  ltac:(rewrite !length_app in *; lia) Hu Hl)).
    rewrite (IH (pre ++ hdr ++ payload r) tail fuel).
    + rewrite add_packets_app. simpl. now rewrite <- !app_assoc.
    + now rewrite Hc, <- !app_assoc.
    + rewrite <- !app_assoc in *. exact Hq.
Qed.

Lemma classic_turn_header_fault pre rest self :
  content f = pre ++ rest ->
  (length pre <= q < length pre + Nat.min 16 (length rest))%nat ->
  classic_turn lt nano f (length pre) self = Some (Raise (OSError errno), self).
Proof.
  intros Hc Hq. unfold classic_turn. unfold_monad.
  now rewrite (read_hits pre rest 16).
Qed.

End ClassicFault.

(** A classic file whose reads fail from some offset on, on a host without
    dpkt: when the complete records before that offset read well and the
    offset lies in the record header that follows them, the reader raises
    the I/O error as it came, and the session holds the fields of the
    global header and, after the packets it had, one packet for each of
    those records. *)
Theorem classic_reader_keeps_what_it_read_before_an_io_error
    P opens endian format_type f q errno global_header body rest rs self :
  DPKT_AVAILABLE P = false ->
  opens 0%nat = Ok f -> fault f = Some (q, errno) ->
  content f = global_header ++ body ++ rest ->
  length global_header = 24%nat ->
  holds_records (is_little endian) body rs ->
  (length (global_header ++ body) <= q
   < length (global_header ++ body) + Nat.min 16 (length rest))%nat ->
  _parse_classic_pcap P opens endian format_type self
  = Some (Raise (OSError errno),
          add_packets (map (packet_of (is_nanosecond format_type)) rs)
            (set_format_info (classic_info endian format_type global_header)
               self)).
Proof.
  intros Hd Ho Hf Hc Hh Hr Hq.
  unfold _parse_classic_pcap, try_except. rewrite Ho, Hd.
  assert (Hrun : classic_attempt (Ok f) endian format_type self
                 = Some (Raise (OSError errno),
                         add_packets (map (packet_of (is_nanosecond format_type)) rs)
                           (set_format_info
                              (classic_info endian format_type global_header)
                              self))).
  { unfold classic_attempt.
    unfold bind at 1. unfold lift at 1, ret at 1. unfold bind at 1.
    assert (R : read f 0 24 = Ok global_header).
    { rewrite <- Hh.
      apply (read_below f q errno Hf [] global_header (body ++ rest));
        [assumption | rewrite length_app in Hq; simpl; lia]. }
    rewrite R. unfold lift at 1, ret at 1.
    assert (E : (length global_header =? 24)%nat = true) by now rewrite Hh.
    unfold bind at 1. unfold unpack_IHHIIII. rewrite E.
    unfold lift at 1, ret at 1. cbv beta iota.
    unfold bind at 1. unfold modify at 1. unfold bind at 1.
    pose proof (holds_records_length _ _ _ Hr) as Hlen.
    assert (Hmin : (1 <= length rest)%nat) by lia.
    replace (S (length (content f)))
      with (length rs + S (length (content f) - length rs))%nat
      by (rewrite Hc, !length_app; lia).
    rewrite (classic_loop_records_below (is_little endian)
               (is_nanosecond format_type) f q errno Hf body rs Hr
               global_header rest) by (assumption || lia).
    cbn [while]. unfold bind at 1.
    rewrite (classic_turn_header_fault (is_little endian)
               (is_nanosecond format_type) f q errno Hf
               (global_header ++ body) rest)
      by (rewrite <- ?app_assoc; assumption).
    reflexivity. }
  now rewrite Hrun.
Qed.

(** [faulty_classic]: the header, a record, and a second record whose
    header cannot be read from its fifth byte on. *)
Lemma classic_reader_keeps_what_it_read_before_an_io_error_witness :
  _parse_classic_pcap no_dpkt (always faulty_classic) (Some little)
    (Some classic) (new_parser None)
  = Some (Raise (OSError 5),
          add_packets (map (packet_of (is_nanosecond (Some classic))) [record1])
            (set_format_info
               (classic_info (Some little) (Some classic) le_global_header)
               (new_parser None))).
Proof.
  apply (classic_reader_keeps_what_it_read_before_an_io_error no_dpkt
           (always faulty_classic) (Some little) (Some classic) faulty_classic
           60%nat 5 le_global_header le_record1 le_record1 [record1]);
    try reflexivity.
  - exact le_record1_holds.
  - simpl; lia.
Defined.

(** ** Without dpkt *)

(** What [parse_file] does on a host without dpkt with a file that opens
    and reads well, by what the file is sniffed as: a classic or nanosecond
    file is parsed without an error when it has its 24 header bytes and
    raises [struct.error] when it has not; a pcapng file raises
    [ValueError] (dpkt required); any other file raises [ValueError]
    (unknown file format). In the three failing cases nothing but the
    filename is written in the session. *)
Theorem parse_file_without_dpkt P fs path f self :
  DPKT_AVAILABLE P = false ->
  truthy (Some path) = true ->
  fs_open fs path 0%nat = Ok f -> fs_open fs path 1%nat = Ok f ->
  fault f = None ->
  match snd (detect_format (Ok f)) with
  | Some classic | Some nanosecond =>
      if (24 <=? length (content f))%nat
      then exists self',
             parse_file P fs (Some path) self = Some (Ok tt, self')
      else parse_file P fs (Some path) self
           = Some (Raise StructError, set_filename (Some path) self)
  | Some pcapng =>
      parse_file P fs (Some path) self
      = Some (Raise (ValueError RequiresDpkt), set_filename (Some path) self)
  | Some wireless_cap | None =>
      parse_file P fs (Some path) self
      = Some (Raise (ValueError UnknownFileFormat), set_filename (Some path) self)
  end.
Proof.
  intros Hd Ht Ho0 Ho1 Hf.
  rewrite !parse_file_named by assumption. cbv zeta. rewrite Ho0.
  assert (Hclassic : forall endian format_type,
             if (24 <=? length (content f))%nat
             then exists self',
                 _parse_classic_pcap P (later (fs_open fs path)) endian format_type
                   (set_filename (Some path) self) = Some (Ok tt, self')
             else _parse_classic_pcap P (later (fs_open fs path)) endian format_type
                    (set_filename (Some path) self)
                  = Some (Raise StructError, set_filename (Some path) self)).
  { intros endian format_type.
    destruct (Nat.leb_spec 24 (length (content f))) as [Hl|Hl].
    - destruct (classic_reader_on_any_bytes P (later (fs_open fs path)) endian
                  format_type f (set_filename (Some path) self) Ho1 Hf Hl)
        as [l [H _]].
      eexists; exact H.
    - unfold _parse_classic_pcap, try_except, later. rewrite Ho1.
      rewrite classic_attempt_short_header by assumption.
      now rewrite Hd. }
  destruct (detect_format (Ok f)) as [endian [[| | |]|]]; cbn [snd].
  - apply Hclassic.
  - apply Hclassic.
  - unfold _parse_pcapng. now rewrite Hd.
  - now rewrite Hd.
  - now rewrite Hd.
Qed.

(** The scenario, on a host without dpkt. *)
Lemma parse_file_without_dpkt_witness :
  match snd (detect_format (Ok (healthy scenario))) with
  | Some classic | Some nanosecond =>
      if (24 <=? length (content (healthy scenario)))%nat
      then exists self',
             parse_file no_dpkt (one_file scenario) (Some "cut.pcap"%string)
               (new_parser None) = Some (Ok tt, self')
      else parse_file no_dpkt (one_file scenario) (Some "cut.pcap"%string)
             (new_parser None)
           = Some (Raise StructError,
                   set_filename (Some "cut.pcap"%string) (new_parser None))
  | Some pcapng =>
      parse_file no_dpkt (one_file scenario) (Some "cut.pcap"%string)
        (new_parser None)
      = Some (Raise (ValueError RequiresDpkt),
              set_filename (Some "cut.pcap"%string) (new_parser None))
  | Some wireless_cap | None =>
      parse_file no_dpkt (one_file scenario) (Some "cut.pcap"%string)
        (new_parser None)
      = Some (Raise (ValueError UnknownFileFormat),
              set_filename (Some "cut.pcap"%string) (new_parser None))
  end.
Proof.
  apply (parse_file_without_dpkt no_dpkt (one_file scenario) "cut.pcap"%string
           (healthy scenario) (new_parser None));
    reflexivity.
Defined.

(** ** The entanglement witness *)

Lemma count_in_packet s patterns :
  fold_left
    (fun patterns pattern =>
       if contains s pattern then increment pattern patterns else patterns)
    common_patterns patterns
  = fold_left (fun patterns pattern => increment pattern patterns)
      (filter (contains s) common_patterns) patterns.
Proof.
  revert patterns. induction common_patterns as [|p ps IH]; intros patterns.
  - reflexivity.
  - cbn [fold_left filter]. destruct (contains s p); cbn [fold_left]; apply IH.
Qed.

Lemma true_div_same n : 0 < n -> true_div n n = 1%float.
Proof.
  intros H. unfold true_div.
  destruct (Z.leb_spec n 0); [lia|]. cbn [orb].
  rewrite Z.sub_diag. change (0 - 52) with (-52). change (0 - 53) with (-53).
  cbn [Z.leb Z.compare Z.opp].
  assert (E : n * 2 ^ 52 / n = 2 ^ 52) by (rewrite Z.mul_comm; apply Z.div_mul; lia).
  assert (M : (n * 2 ^ 52) mod n = 0) by (rewrite Z.mul_comm; apply Z.mod_mul; lia).
  rewrite E. change (2 ^ 52 <? 2 ^ 52) with false. cbv iota.
  cbn [Z.leb Z.compare Z.opp]. rewrite E, M.
  change (2 * 0) with 0.
  destruct (Z.ltb_spec n 0); [lia|].
  destruct (Z.eqb_spec 0 n); [lia|]. cbn [orb andb].
  vm_compute. reflexivity.
Qed.

(** Traffic in which none of the five patterns occurs, in the first 100
    bytes of the first 1000 packets read as lower-case ASCII, gets exactly
    the classical bound 2.0; and traffic in which one pattern and no other
    occurs gets exactly 2.1, however many packets carry it. *)
Theorem entanglement_witness_of_one_keyword packets pattern :
  (forall p, In p (firstn 1000 packets) ->
             keywords_in p = [] \/ keywords_in p = [pattern]) ->
  _compute_entanglement_witness packets
  = if forallb (fun p => match keywords_in p with [] => true | _ => false end)
         (firstn 1000 packets)
    then 2%float
    else 0x1.0cccccccccccdp+1%float.
Proof.
  intros H. unfold _compute_entanglement_witness, count_patterns.
  assert (Hinv : forall l d,
             (forall p, In p l -> keywords_in p = [] \/ keywords_in p = [pattern]) ->
             d = [] \/ (exists n, 0 < n /\ d = [(pattern, n)]) ->
             let d' := fold_left
                         (fun patterns packet =>
                            fold_left
                              (fun patterns pattern =>
                                 if contains (data_str packet) pattern
                                 then increment pattern patterns else patterns)
                              common_patterns patterns) l d in
             (d' = d
              /\ forallb (fun p => match keywords_in p with [] => true | _ => false end)
                   l = true)
             \/ (exists n, 0 < n /\ d' = [(pattern, n)]
                 /\ (d = []
                     -> forallb (fun p => match keywords_in p with
                                          | [] => true | _ => false end) l
                        = false))).
  { induction l as [|p l IH]; intros d Hl Hd; cbv zeta.
    - left. split; reflexivity.
    - cbn [fold_left forallb]. rewrite count_in_packet.
      fold (keywords_in p).
      destruct (Hl p (or_introl eq_refl)) as [Hk|Hk]; rewrite Hk; cbn [fold_left].
      + destruct (IH d (fun p' Hp' => Hl p' (or_intror Hp')) Hd) as [[E F]|[n [Hn [E F]]]].
        * left. split; assumption.
        * right. exists n. repeat split; assumption.
      + assert (Hd' : exists m, 0 < m /\ increment pattern d = [(pattern, m)]).
        { destruct Hd as [->|[m [Hm ->]]].
          - exists 1. split; [lia | reflexivity].
          - exists (m + 1). split; [lia|]. cbn [increment].
            destruct (list_eq_dec Byte.byte_eq_dec pattern pattern);
              [reflexivity | contradiction]. }
        destruct Hd' as [m [Hm Hd']].
        destruct (IH (increment pattern d) (fun p' Hp' => Hl p' (or_intror Hp'))
                    (or_intror (ex_intro _ m (conj Hm Hd'))))
          as [[E F]|[n [Hn [E F]]]].
        * right. exists m. rewrite E. repeat split; assumption.
        * right. exists n. repeat split; assumption. }
  destruct (Hinv (firstn 1000 packets) [] H (or_introl eq_refl))
    as [[E F]|[n [Hn [E F]]]]; cbv zeta in E.
  - rewrite E, F. reflexivity.
  - rewrite E, (F eq_refl). cbn [map snd fold_left].
    change (0 + n) with n.
    destruct (Z.ltb_spec 0 n); [|lia].
    rewrite true_div_same by assumption.
    vm_compute. reflexivity.
Qed.

(** Five packets that say LOGIN after a byte that is not ASCII, then a
    packet of zeros. *)
Lemma entanglement_witness_of_one_keyword_witness :
  _compute_entanglement_witness
    (repeat login_packet 5 ++ [new_packet (repeat Byte.x00 40) 0%float])
  = if forallb (fun p => match keywords_in p with [] => true | _ => false end)
         (firstn 1000
            (repeat login_packet 5 ++ [new_packet (repeat Byte.x00 40) 0%float]))
    then 2%float
    else 0x1.0cccccccccccdp+1%float.
Proof.
  apply (entanglement_witness_of_one_keyword _ (list_byte_of_string "login"%string)).
  intros p Hp. cbn [repeat app firstn] in Hp.
  repeat (destruct Hp as [<-|Hp]; [vm_compute; auto|]).
  destruct Hp.
Defined.
